(** * Chatbot Laponia: the conversation / knowledge store and the chat
      orchestrator of [api.py], embedded in Rocq.

    The Python program keeps two SQLite tables ([conversations] and
    [knowledge]) behind the class [ChatbotDatabase], serialises every access
    with the module-level [db_lock], and answers chat messages either with a
    store command ([/salvar], [/recuperar]) or by calling a hosted completion
    endpoint ([Chatbot.process_message]).

    Layout of this file:
    - [PyStr]     Python [str] values and the string methods [api.py] calls;
    - outcomes    exceptions as values, and a state-and-exception monad;
    - [Sql]       the two tables and the four SQL statements of the program;
    - the four store methods, [generate_response], [process_message], [chat];
    - [Threads]   request threads interleaving around [db_lock];
    - the properties proved about all of the above. *)

From Stdlib Require Import ZArith NArith String Ascii.
From stdpp Require Import base tactics option list numbers sorting.

Local Open Scope Z_scope.

(* ===================================================================== *)
(** ** Python strings *)
(* ===================================================================== *)

Module PyStr.

(** A Python [str] is a sequence of Unicode code points. *)
Definition str : Type := list N.

(** Decoding of the UTF-8 bytes of a literal of this file into code points
    (one to four bytes per code point). *)
Fixpoint utf8_decode (bs : list N) : str :=
  match bs with
  | [] => []
  | b0 :: r0 =>
      if (b0 <? 128)%N then b0 :: utf8_decode r0
      else
        match r0 with
        | [] => []
        | b1 :: r1 =>
            if (b0 <? 224)%N
            then ((b0 mod 32) * 64 + b1 mod 64)%N :: utf8_decode r1
            else
              match r1 with
              | [] => []
              | b2 :: r2 =>
                  if (b0 <? 240)%N
                  then ((b0 mod 16) * 4096 + (b1 mod 64) * 64 + b2 mod 64)%N
                         :: utf8_decode r2
                  else
                    match r2 with
                    | [] => []
                    | b3 :: r3 =>
                        ((b0 mod 8) * 262144 + (b1 mod 64) * 4096
                         + (b2 mod 64) * 64 + b3 mod 64)%N :: utf8_decode r3
                    end
              end
        end
  end.

(** [py "..."] is the Python string written as that literal. *)
Definition py (s : string) : str :=
  utf8_decode (List.map N_of_ascii (list_ascii_of_string s)).

(** The character [U+0022], which a literal of this file cannot hold. *)
Definition dquote : str := [34%N].

Definition colon : N := 58%N.

(** Truth value of a string in a condition ([if context:], [if valor:]). *)
Definition truthy (s : str) : bool :=
  match s with [] => false | _ :: _ => true end.

(** [s.startswith(prefix)] *)
Fixpoint startswith (prefix s : str) : bool :=
  match prefix, s with
  | [], _ => true
  | _ :: _, [] => false
  | p :: prefix', c :: s' => (p =? c)%N && startswith prefix' s'
  end.

(** [s.split(sep)] for a separator of one character: never the empty list. *)
Fixpoint split (sep : N) (s : str) : list str :=
  match s with
  | [] => [[]]
  | c :: s' =>
      if (c =? sep)%N then [] :: split sep s'
      else
        match split sep s' with
        | part :: parts => (c :: part) :: parts
        | [] => [[c]]
        end
  end.

(** [sep.join(parts)] *)
Fixpoint join (sep : str) (parts : list str) : str :=
  match parts with
  | [] => []
  | [part] => part
  | part :: parts' => part ++ sep ++ join sep parts'
  end.

(** [s.replace(old, new)] for a non-empty [old]: the occurrences of [old] are
    found from the left and do not overlap.  [skip] counts the characters of
    an occurrence that are still to be dropped. *)
Fixpoint replace_from (old new : str) (skip : nat) (s : str) : str :=
  match s with
  | [] => []
  | c :: s' =>
      match skip with
      | S skip' => replace_from old new skip' s'
      | O =>
          if startswith old s
          then new ++ replace_from old new (Nat.pred (length old)) s'
          else c :: replace_from old new O s'
      end
  end.

Definition replace (old new s : str) : str := replace_from old new O s.

(** The characters [str.strip()] removes: those for which [str.isspace()]
    holds. *)
Definition isspace (c : N) : bool :=
  ((9 <=? c) && (c <=? 13) || (28 <=? c) && (c <=? 32)
   || (c =? 133) || (c =? 160) || (c =? 5760)
   || (8192 <=? c) && (c <=? 8202)
   || (c =? 8232) || (c =? 8233) || (c =? 8239) || (c =? 8287)
   || (c =? 12288))%N.

Fixpoint lstrip (s : str) : str :=
  match s with
  | [] => []
  | c :: s' => if isspace c then lstrip s' else s
  end.

Definition rstrip (s : str) : str := rev (lstrip (rev s)).

(** [s.strip()] *)
Definition strip (s : str) : str := rstrip (lstrip s).

(** Code points that UTF-8 cannot encode (lone surrogates). *)
Definition is_surrogate (c : N) : bool := ((55296 <=? c) && (c <=? 57343))%N.

(** [needle in s] *)
Fixpoint contains (needle s : str) : bool :=
  startswith needle s
  || match s with [] => false | _ :: s' => contains needle s' end.

End PyStr.
Export PyStr.

(* ===================================================================== *)
(** ** Exceptions and state *)
(* ===================================================================== *)

(** What running a piece of Python gives: a value, or a raised exception.
    The program only ever looks at [str(e)], so an exception is its text. *)
Inductive outcome (A : Type) : Type :=
| Return (a : A)
| Raise (e : str).
Arguments Return {A} a.
Arguments Raise {A} e.

#[global] Instance outcome_ret : MRet outcome := fun _ a => Return a.
#[global] Instance outcome_bind : MBind outcome := fun _ _ f m =>
  match m with
  | Return a => f a
  | Raise e => Raise e
  end.

(** Code that runs on a mutable state [S] and may raise.  The state reached
    when the exception is raised is kept. *)
Definition M (S A : Type) : Type := S -> outcome A * S.

#[global] Instance M_ret {S} : MRet (M S) := fun _ a s => (Return a, s).
#[global] Instance M_bind {S} : MBind (M S) := fun _ _ f m s =>
  match m s with
  | (Return a, s') => f a s'
  | (Raise e, s') => (Raise e, s')
  end.

Definition get {S} : M S S := fun s => (Return s, s).
Definition put {S} (s : S) : M S unit := fun _ => (Return tt, s).

(** An effect-free computation that may raise. *)
Definition lift {S A} (o : outcome A) : M S A := fun s => (o, s).

(** [try: body  except Exception as e: handler(e)] *)
Definition try_except {S A} (body : M S A) (handler : str -> M S A) : M S A :=
  fun s =>
    match body s with
    | (Return a, s') => (Return a, s')
    | (Raise e, s') => handler e s'
    end.

(** Running code written for a part [S] of a larger state [W]. *)
Definition zoom {W S A} (proj : W -> S) (upd : S -> W -> W) (m : M S A)
  : M W A :=
  fun w => let '(o, s') := m (proj w) in (o, upd s' w).

(* ===================================================================== *)
(** ** The SQLite database *)
(* ===================================================================== *)

(** A row of [conversations].  [timestamp] is the column that defaults to
    [CURRENT_TIMESTAMP], a text ['YYYY-MM-DD HH:MM:SS'] in UTC: it has a
    resolution of one second and compares like the number of seconds it
    denotes, which is what the model stores. *)
Record ConversationEntry : Type := {
  conv_id : Z;
  user_message : str;
  ai_response : str;
  timestamp : Z
}.

(** A row of [knowledge]: [UNIQUE(category, key)] is declared on the table. *)
Record KnowledgeFact : Type := {
  fact_id : Z;
  category : str;
  key : str;
  value : str
}.

(** The database file: both tables in rowid order (the order of a table
    scan), and for each the counter SQLite keeps in [sqlite_sequence] for an
    [AUTOINCREMENT] column. *)
Record Database : Type := {
  conversations : list ConversationEntry;
  conversations_seq : Z;
  knowledge : list KnowledgeFact;
  knowledge_seq : Z
}.

Module Sql.

(** [CREATE TABLE IF NOT EXISTS] twice, on a file that does not exist yet. *)
Definition empty_database : Database :=
  {| conversations := []; conversations_seq := 0;
     knowledge := []; knowledge_seq := 0 |}.

Definition max_rowid : Z := 9223372036854775807.

Definition largest (ids : list Z) : Z := foldr Z.max 0 ids.

(** The rowid an [INTEGER PRIMARY KEY AUTOINCREMENT] column gets: one more
    than the largest rowid the table has ever held.  Once the largest
    possible rowid has been used the insertion fails with [SQLITE_FULL]. *)
Definition next_rowid (seq : Z) (ids : list Z) : outcome Z :=
  let m := Z.max seq (largest ids) in
  if max_rowid <=? m then Raise (py "database or disk is full")
  else Return (m + 1).

(** Binding a Python [str] to a [?]: the string is encoded in UTF-8, which
    raises [UnicodeEncodeError] on a lone surrogate. *)
Definition bind_text (s : str) : outcome unit :=
  if existsb is_surrogate s
  then Raise (py "'utf-8' codec can't encode character: surrogates not allowed")
  else Return tt.

(** Binding a Python [int] to a [?]: it has to fit a 64-bit signed integer. *)
Definition bind_int (n : Z) : outcome unit :=
  if (n <? - max_rowid - 1) || (max_rowid <? n)
  then Raise (py "Python int too large to convert to SQLite INTEGER")
  else Return tt.

(** [INSERT INTO conversations (user_message, ai_response) VALUES (?, ?)],
    executed when the clock reads [now]. *)
Definition insert_conversation (now : Z) (um ar : str) (d : Database)
  : outcome Database :=
  _ ← bind_text um;
  _ ← bind_text ar;
  id ← next_rowid (conversations_seq d) (conv_id <$> conversations d);
  mret {| conversations :=
            conversations d
            ++ [{| conv_id := id; user_message := um; ai_response := ar;
                   timestamp := now |}];
          conversations_seq := id;
          knowledge := knowledge d;
          knowledge_seq := knowledge_seq d |}.

(** [category = ? AND key = ?], with the BINARY collation of a TEXT column. *)
Definition same_key (c k : str) (f : KnowledgeFact) : bool :=
  bool_decide (category f = c) && bool_decide (key f = k).

(** The rows that [OR REPLACE] leaves: those not in conflict with [(c, k)]. *)
Fixpoint delete_conflicts (c k : str) (facts : list KnowledgeFact)
  : list KnowledgeFact :=
  match facts with
  | [] => []
  | f :: facts' =>
      if same_key c k f then delete_conflicts c k facts'
      else f :: delete_conflicts c k facts'
  end.

(** [INSERT OR REPLACE INTO knowledge (category, key, value) VALUES (?,?,?)]:
    the new rowid is chosen, the rows that would violate
    [UNIQUE(category, key)] are deleted, the new row is inserted. *)
Definition insert_or_replace_knowledge (c k v : str) (d : Database)
  : outcome Database :=
  _ ← bind_text c;
  _ ← bind_text k;
  _ ← bind_text v;
  id ← next_rowid (knowledge_seq d) (fact_id <$> knowledge d);
  mret {| conversations := conversations d;
          conversations_seq := conversations_seq d;
          knowledge :=
            delete_conflicts c k (knowledge d)
            ++ [{| fact_id := id; category := c; key := k; value := v |}];
          knowledge_seq := id |}.

(** [SELECT value FROM knowledge WHERE category = ? AND key = ?] followed by
    [fetchone()]: the first matching row, or [None]. *)
Fixpoint first_value (c k : str) (facts : list KnowledgeFact) : option str :=
  match facts with
  | [] => None
  | f :: facts' =>
      if same_key c k f then Some (value f) else first_value c k facts'
  end.

Definition select_value (c k : str) (d : Database) : outcome (option str) :=
  _ ← bind_text c;
  _ ← bind_text k;
  mret (first_value c k (knowledge d)).

(** [ORDER BY timestamp DESC]: SQLite feeds the rows of the table scan, in
    rowid order, to a sorter keyed by the timestamp; a row comes after every
    row already there whose timestamp is not smaller, so rows of equal
    timestamp stay in rowid order. *)
Fixpoint sorter_insert (r : ConversationEntry) (sorted : list ConversationEntry)
  : list ConversationEntry :=
  match sorted with
  | [] => [r]
  | x :: sorted' =>
      if timestamp x <? timestamp r then r :: sorted
      else x :: sorter_insert r sorted'
  end.

Definition order_by_timestamp_desc (table : list ConversationEntry)
  : list ConversationEntry :=
  fold_left (fun sorted r => sorter_insert r sorted) table [].

(** [LIMIT ?]: a negative limit is no limit. *)
Definition limit_rows {A} (limit : Z) (l : list A) : list A :=
  if limit <? 0 then l else take (Z.to_nat limit) l.

(** [SELECT user_message, ai_response FROM conversations
     ORDER BY timestamp DESC LIMIT ?] followed by [fetchall()]. *)
Definition select_history_rows (limit : Z) (d : Database)
  : list ConversationEntry :=
  limit_rows limit (order_by_timestamp_desc (conversations d)).

Definition select_history (limit : Z) (d : Database)
  : outcome (list (str * str)) :=
  _ ← bind_int limit;
  mret ((fun r => (user_message r, ai_response r))
          <$> select_history_rows limit d).

End Sql.
Export Sql.

(* ===================================================================== *)
(** ** [class ChatbotDatabase] *)
(* ===================================================================== *)

(** The steps of a store method at which the [sqlite3] module can raise for
    reasons outside the program (file not writable, disk full, database
    locked for longer than the timeout, ...). *)
Inductive phase : Type := Connect | Execute | Commit | Fetch | Close.

#[global] Instance phase_eq_dec : EqDecision phase.
Proof. solve_decision. Defined.

(** What the surroundings do to one call of a store method: for each step,
    nothing ([Return tt]) or an exception. *)
Definition faults : Type := phase -> outcome unit.

Definition no_faults : faults := fun _ => Return tt.

Definition fault_at (p : phase) (e : str) : faults :=
  fun q => if bool_decide (p = q) then Raise e else Return tt.

(** [_init_database], on a database file that may exist already. *)
Definition init_database (file : option Database) : Database :=
  default empty_database file.

(** [save_conversation(user_message, ai_response)].  The INSERT runs in the
    transaction of the method's own connection; [conn.commit()] makes it
    part of the database file. *)
Definition save_conversation (io : faults) (now : Z) (um ar : str)
  : M Database bool :=
  try_except
    (_ ← lift (io Connect);
     d ← get;
     txn ← lift (_ ← io Execute; insert_conversation now um ar d);
     _ ← lift (io Commit);
     _ ← put txn;
     _ ← lift (io Close);
     mret true)
    (fun e => mret false).

(** [save_knowledge(category, key, value)] *)
Definition save_knowledge (io : faults) (c k v : str) : M Database bool :=
  try_except
    (_ ← lift (io Connect);
     d ← get;
     txn ← lift (_ ← io Execute; insert_or_replace_knowledge c k v d);
     _ ← lift (io Commit);
     _ ← put txn;
     _ ← lift (io Close);
     mret true)
    (fun e => mret false).

(** [get_knowledge(category, key)]: [result[0] if result else None]. *)
Definition get_knowledge (io : faults) (c k : str) : M Database (option str) :=
  try_except
    (_ ← lift (io Connect);
     d ← get;
     result ← lift (_ ← io Execute; select_value c k d);
     _ ← lift (io Fetch);
     _ ← lift (io Close);
     mret result)
    (fun e => mret None).

(** [get_conversation_history(limit)] *)
Definition get_conversation_history (io : faults) (limit : Z)
  : M Database (list (str * str)) :=
  try_except
    (_ ← lift (io Connect);
     d ← get;
     result ← lift (_ ← io Execute; select_history limit d);
     _ ← lift (io Fetch);
     _ ← lift (io Close);
     mret result)
    (fun e => mret []).

(* ===================================================================== *)
(** ** [class Chatbot] and the [/api/chat] route *)
(* ===================================================================== *)

(** One entry of the [messages] list sent to the completion endpoint. *)
Record Message : Type := { role : str; content : str }.

(** The arguments of [client.chat.completions.create]. *)
Record Request : Type := { messages : list Message; model : str }.

(** What a request handler can change: the database file, and the requests
    that went out to the completion endpoint (oldest first). *)
Record World : Type := { db : Database; sent : list Request }.

Definition on_db {A} (m : M Database A) : M World A :=
  zoom db (fun d w => {| db := d; sent := sent w |}) m.

(** The store methods a request handler calls, each at most once. *)
Inductive site : Type :=
| AtHistory | AtSaveConversation | AtSaveKnowledge | AtGetKnowledge.

(** The surroundings of one request: what [sqlite3] does to each store call,
    what the clock reads when the conversation is inserted, and what the
    completion endpoint answers, [chat_completion.choices[0].message.content]
    or an exception. *)
Record Env : Type := {
  io : site -> faults;
  clock : Z;
  complete : Request -> outcome str
}.

Definition persona : Message :=
  {| role := py "system";
     content := py "Você é um assistente de IA. Seu nome é Laponia. Responda às perguntas do usuário da melhor forma possível." |}.

(** The [messages] list of [generate_response(prompt, context)]. *)
Definition build_messages (prompt : str) (context : option str)
  : list Message :=
  [persona]
  ++ match context with
     | Some ctx =>
         if truthy ctx
         then [{| role := py "system";
                  content := py "Contexto adicional: " ++ ctx |}]
         else []
     | None => []
     end
  ++ [{| role := py "user"; content := prompt |}].

(** [generate_response(prompt, context=None)] *)
Definition generate_response (E : Env) (prompt : str) (context : option str)
  : M World str :=
  let request :=
    {| messages := build_messages prompt context;
       model := py "llama3-8b-8192" |} in
  w ← get;
  _ ← put {| db := db w; sent := sent w ++ [request] |};
  lift (complete E request).

(** The request [process_message(user_message)] sends when the history it
    read is [historico]. *)
Definition request_of (user_message : str) (historico : list (str * str))
  : Request :=
  {| messages :=
       build_messages user_message
         (Some (join (py " ")
                  ((fun msg => msg.1 ++ py " -> " ++ msg.2) <$> historico)));
     model := py "llama3-8b-8192" |}.

(** [f"{msg[0]} -> {msg[1]}"] *)
Definition fragment (msg : str * str) : str := msg.1 ++ py " -> " ++ msg.2.

(** [" ".join([f"{msg[0]} -> {msg[1]}" for msg in historico_conversa])] *)
Definition build_context (historico_conversa : list (str * str)) : str :=
  join (py " ") (fragment <$> historico_conversa).

(** [f"Desculpe, ocorreu um erro: {str(e)}"] *)
Definition apology (e : str) : str := py "Desculpe, ocorreu um erro: " ++ e.

(** The [try] block of [process_message]. *)
Definition process_message_body (E : Env) (user_message : str) : M World str :=
  historico_conversa ← on_db (get_conversation_history (io E AtHistory) 2);
  let contexto := build_context historico_conversa in
  resposta ← generate_response E user_message (Some contexto);
  _ ← on_db (save_conversation (io E AtSaveConversation) (clock E)
               user_message resposta);
  mret resposta.

(** [process_message(user_message)] *)
Definition process_message (E : Env) (user_message : str) : M World str :=
  try_except (process_message_body E user_message)
    (fun e => mret (apology e)).

(** The three parsing steps of the [/salvar] branch. *)
Definition salvar_categoria (parts : list str) : str :=
  strip (replace (py "/salvar") [] (nth 0 parts [])).
Definition salvar_chave (parts : list str) : str := strip (nth 1 parts []).
Definition salvar_valor (parts : list str) : str :=
  strip (join [colon] (drop 2 parts)).

(** The two parsing steps of the [/recuperar] branch. *)
Definition recuperar_categoria (parts : list str) : str :=
  strip (replace (py "/recuperar") [] (nth 0 parts [])).
Definition recuperar_chave (parts : list str) : str := strip (nth 1 parts []).

(** The body of [chat] from [user_message = data['message']] on: the text of
    the ["response"] field. *)
Definition chat_response (E : Env) (user_message : str) : M World str :=
  let normal := process_message E user_message in
  let recuperar :=
    if startswith (py "/recuperar") user_message then
      let parts := split colon user_message in
      if (length parts =? 2)%nat then
        let categoria := recuperar_categoria parts in
        let chave := recuperar_chave parts in
        valor ← on_db (get_knowledge (io E AtGetKnowledge) categoria chave);
        match valor with
        | Some v =>
            if truthy v then mret (py "Valor recuperado: " ++ v)
            else mret (py "Conhecimento não encontrado")
        | None => mret (py "Conhecimento não encontrado")
        end
      else normal
    else normal in
  if startswith (py "/salvar") user_message then
    let parts := split colon user_message in
    if (3 <=? length parts)%nat then
      let categoria := salvar_categoria parts in
      let chave := salvar_chave parts in
      let valor := salvar_valor parts in
      success ← on_db (save_knowledge (io E AtSaveKnowledge)
                         categoria chave valor);
      if success : bool
      then mret (py "Conhecimento salvo: " ++ categoria ++ [colon] ++ chave)
      else mret (py "Erro ao salvar conhecimento")
    else recuperar
  else recuperar.

(** A JSON answer with one field, and its HTTP status. *)
Record HttpResponse : Type := { status : Z; field : str; text : str }.

(** A JSON value, as [request.json] gives it: [None], a [bool], an [int], a
    [float] (of which the route only ever looks at whether it is zero), a
    [str], a [list] or a [dict], whose fields are in the order of the text. *)
#[warnings="-register-all"]
Inductive json : Type :=
| JNull
| JBool (b : bool)
| JInt (n : Z)
| JFloat (zero : bool)
| JString (s : str)
| JArray (items : list json)
| JObject (fields : list (str * json)).

(** The body of a request, as [request.json] sees it: it raises [e] (the
    content type is not JSON, the text is not JSON), or gives the value. *)
Inductive Body : Type :=
| NotJson (e : str)
| Json (data : json).

Definition request_json (body : Body) : outcome json :=
  match body with
  | NotJson e => Raise e
  | Json data => Return data
  end.

(** [type(v).__name__] *)
Definition type_name (v : json) : str :=
  match v with
  | JNull => py "NoneType"
  | JBool _ => py "bool"
  | JInt _ => py "int"
  | JFloat _ => py "float"
  | JString _ => py "str"
  | JArray _ => py "list"
  | JObject _ => py "dict"
  end.

(** [bool(v)], the truth value of [v] in [if not data]. *)
Definition json_truthy (v : json) : bool :=
  match v with
  | JNull => false
  | JBool b => b
  | JInt n => negb (n =? 0)
  | JFloat zero => negb zero
  | JString s => truthy s
  | JArray items => match items with [] => false | _ :: _ => true end
  | JObject fields => match fields with [] => false | _ :: _ => true end
  end.

(** The value of [key] in the [dict] made of [fields]: when the text has the
    key more than once, the last one is kept. *)
Fixpoint dict_get (key : str) (fields : list (str * json)) : option json :=
  match fields with
  | [] => None
  | (k, v) :: fields' =>
      match dict_get key fields' with
      | Some v' => Some v'
      | None => if bool_decide (k = key) then Some v else None
      end
  end.

(** [v == key], for the string [key]. *)
Definition is_string (key : str) (v : json) : bool :=
  match v with
  | JString s => bool_decide (s = key)
  | _ => false
  end.

(** [key in data], for the string [key]: a key of a [dict], an item of a
    [list], a part of a [str]; a [TypeError] for the other values (the texts
    of the exceptions are those of CPython 3.11). *)
Definition json_contains (key : str) (data : json) : outcome bool :=
  match data with
  | JObject fields =>
      Return (match dict_get key fields with Some _ => true | None => false end)
  | JArray items => Return (existsb (is_string key) items)
  | JString s => Return (contains key s)
  | _ =>
      Raise (py "argument of type '" ++ type_name data
             ++ py "' is not iterable")
  end.

(** [data[key]], for the string [key]. *)
Definition json_getitem (key : str) (data : json) : outcome json :=
  match data with
  | JObject fields =>
      match dict_get key fields with
      | Some v => Return v
      | None => Raise (py "'" ++ key ++ py "'")
      end
  | JArray _ => Raise (py "list indices must be integers or slices, not str")
  | JString _ => Raise (py "string indices must be integers, not 'str'")
  | _ => Raise (py "'" ++ type_name data ++ py "' object is not subscriptable")
  end.

(** [user_message.startswith]: only a [str] has the method. *)
Definition as_str (v : json) : outcome str :=
  match v with
  | JString s => Return s
  | _ =>
      Raise (py "'" ++ type_name v
             ++ py "' object has no attribute 'startswith'")
  end.

#[global] Instance outcome_fmap : FMap outcome := fun _ _ f m =>
  match m with
  | Return a => Return (f a)
  | Raise e => Raise e
  end.

(** [not data or 'message' not in data] *)
Definition message_missing (data : json) : outcome bool :=
  if negb (json_truthy data) then Return true
  else negb <$> json_contains (py "message") data.

(** The route [POST /api/chat] under the global error handler [handle_error].
    [chatbot] says whether the module-level [chatbot] was created; [body] is
    the body of the request. *)
Definition chat (E : Env) (chatbot : bool) (body : Body)
  : M World HttpResponse :=
  try_except
    (if negb chatbot then
       mret {| status := 500; field := py "error";
               text := py "Chatbot não inicializado corretamente" |}
     else
       data ← lift (request_json body);
       missing ← lift (message_missing data);
       if missing : bool then
         mret {| status := 400; field := py "error";
                 text := py "Formato de requisição inválido. Envie um JSON com o campo 'message'" |}
       else
         message ← lift (json_getitem (py "message") data);
         user_message ← lift (as_str message);
         response ← chat_response E user_message;
         mret {| status := 200; field := py "response"; text := response |})
    (fun e => mret {| status := 500; field := py "error"; text := e |}).

(* ===================================================================== *)
(** ** Request threads and [db_lock] *)
(* ===================================================================== *)

Module Threads.

(** A call of a store method made by a request thread. *)
Inductive call : Type :=
| SaveConversation (um ar : str)
| SaveKnowledge (c k v : str)
| GetKnowledge (c k : str)
| GetConversationHistory (limit : Z).

(** What a store method returns. *)
Inductive result : Type :=
| Flag (b : bool)
| Value (v : option str)
| Rows (l : list (str * str)).

(** Where a thread is in its store method.  The four methods have the same
    shape: [with db_lock:] connect, execute, commit (or fetch), close,
    return. *)
Inductive pc : Type :=
| Waiting
| Locked
| Executed (txn : option Database) (r : result)
| Closing (r : result)
| Done (r : result).

(** The statement of each method, run on the database file [d]: the
    transaction to commit, if the method writes, and the value to return. *)
Definition execute (now : Z) (c : call) (d : Database)
  : outcome (option Database * result) :=
  match c with
  | SaveConversation um ar =>
      txn ← insert_conversation now um ar d; mret (Some txn, Flag true)
  | SaveKnowledge c k v =>
      txn ← insert_or_replace_knowledge c k v d; mret (Some txn, Flag true)
  | GetKnowledge c k =>
      v ← select_value c k d; mret (None, Value v)
  | GetConversationHistory limit =>
      rows ← select_history limit d; mret (None, Rows rows)
  end.

(** What the [except] clause of each method returns. *)
Definition sentinel (c : call) : result :=
  match c with
  | SaveConversation _ _ | SaveKnowledge _ _ _ => Flag false
  | GetKnowledge _ _ => Value None
  | GetConversationHistory _ => Rows []
  end.

(** The process: [db_lock], the database file, and the request threads. *)
Record Config : Type := {
  locked : bool;
  file : Database;
  pool : list (call * pc)
}.

Definition critical (p : pc) : bool :=
  match p with
  | Locked | Executed _ _ | Closing _ => true
  | Waiting | Done _ => false
  end.

(** One step of thread [i], the clock reading [now].
    - [Waiting]: [db_lock.acquire()], which blocks while the lock is held;
    - [Locked]: the connection is opened and the statement executed; an
      exception leaves the [with] block, which releases the lock, and the
      [except] clause returns the sentinel;
    - [Executed]: [conn.commit()] writes the transaction to the file;
    - [Closing]: [conn.close()], and the [return] leaves the [with] block. *)
Definition step (i : nat) (now : Z) (σ : Config) : Config :=
  match pool σ !! i with
  | None => σ
  | Some (c, p) =>
      match p with
      | Waiting =>
          if locked σ then σ
          else {| locked := true; file := file σ;
                  pool := <[i := (c, Locked)]> (pool σ) |}
      | Locked =>
          match execute now c (file σ) with
          | Return (txn, r) =>
              {| locked := locked σ; file := file σ;
                 pool := <[i := (c, Executed txn r)]> (pool σ) |}
          | Raise e =>
              {| locked := false; file := file σ;
                 pool := <[i := (c, Done (sentinel c))]> (pool σ) |}
          end
      | Executed txn r =>
          {| locked := locked σ; file := default (file σ) txn;
             pool := <[i := (c, Closing r)]> (pool σ) |}
      | Closing r =>
          {| locked := false; file := file σ;
             pool := <[i := (c, Done r)]> (pool σ) |}
      | Done _ => σ
      end
  end.

(** A schedule names, step after step, the thread that runs and the clock. *)
Definition run (schedule : list (nat * Z)) (σ : Config) : Config :=
  fold_left (fun σ s => step s.1 s.2 σ) schedule σ.

(** The threads of the process at its start: each has one call to make. *)
Definition waiting (calls : list call) : list (call * pc) :=
  (fun c => (c, Waiting)) <$> calls.

Definition start (d : Database) (calls : list call) : Config :=
  {| locked := false; file := d; pool := waiting calls |}.

(** The arguments of a call of [save_conversation]. *)
Definition conversation_of (c : call) : list (str * str) :=
  match c with
  | SaveConversation um ar => [(um, ar)]
  | _ => []
  end.

(** The conversation a thread has committed. *)
Definition committed (t : call * pc) : list (str * str) :=
  match t with
  | (SaveConversation um ar, Closing (Flag true))
  | (SaveConversation um ar, Done (Flag true)) => [(um, ar)]
  | _ => []
  end.

(** The caller of [save_conversation] got [True]. *)
Definition saved (t : call * pc) : Prop :=
  match t with
  | (SaveConversation _ _, p) => p = Done (Flag true)
  | _ => True
  end.

(** The steps a thread can take, with the lock and the file they leave. *)
Inductive transition (now : Z) (c : call) (σ : Config)
  : pc -> pc -> bool -> Database -> Prop :=
| t_acquire :
    locked σ = false -> transition now c σ Waiting Locked true (file σ)
| t_execute txn r :
    execute now c (file σ) = Return (txn, r) ->
    transition now c σ Locked (Executed txn r) (locked σ) (file σ)
| t_raise e :
    execute now c (file σ) = Raise e ->
    transition now c σ Locked (Done (sentinel c)) false (file σ)
| t_commit txn r :
    transition now c σ (Executed txn r) (Closing r) (locked σ)
      (default (file σ) txn)
| t_release r :
    transition now c σ (Closing r) (Done r) false (file σ).

(** Mutual exclusion: at most one thread is inside a store method, and
    [db_lock] is held while one is. *)
Definition exclusive (σ : Config) : Prop :=
  (∀ i j ti tj,
     pool σ !! i = Some ti -> pool σ !! j = Some tj ->
     critical ti.2 = true -> critical tj.2 = true -> i = j)
  ∧ (∀ i t, pool σ !! i = Some t -> critical t.2 = true -> locked σ = true).

(** The transaction a thread is about to commit was computed from the
    database file as it is now. *)
Definition coherent (σ : Config) : Prop :=
  ∀ i c txn r,
    pool σ !! i = Some (c, Executed txn r) ->
    ∃ now, execute now c (file σ) = Return (txn, r).

(** The conversations table is the table of the start followed by one row
    for each committed [save_conversation], and no two rows share an id. *)
Definition accounted (d0 : Database) (σ : Config) : Prop :=
  ∃ news,
    conversations (file σ) = conversations d0 ++ news
    ∧ (fun r => (user_message r, ai_response r)) <$> news
      ≡ₚ pool σ ≫= committed.

Definition invariant (calls : list call) (d0 : Database) (σ : Config) : Prop :=
  exclusive σ ∧ coherent σ ∧ accounted d0 σ
  ∧ NoDup (conv_id <$> conversations (file σ))
  ∧ fst <$> pool σ = calls.

End Threads.

(* ===================================================================== *)
(** ** Sequences of store calls *)
(* ===================================================================== *)

(** A call of a store method together with its surroundings. *)
Inductive StoreCall : Type :=
| CallSaveConversation (io : faults) (now : Z) (um ar : str)
| CallSaveKnowledge (io : faults) (c k v : str)
| CallGetKnowledge (io : faults) (c k : str)
| CallGetConversationHistory (io : faults) (limit : Z).

(** The database the call leaves. *)
Definition after_call (d : Database) (c : StoreCall) : Database :=
  match c with
  | CallSaveConversation io now um ar => (save_conversation io now um ar d).2
  | CallSaveKnowledge io c k v => (save_knowledge io c k v d).2
  | CallGetKnowledge io c k => (get_knowledge io c k d).2
  | CallGetConversationHistory io limit =>
      (get_conversation_history io limit d).2
  end.

(** The database after the calls [cs], made one after the other on the
    database that [_init_database] creates. *)
Definition after_calls (cs : list StoreCall) : Database :=
  fold_left after_call cs (init_database None).

(** Whether the call writes the fact [(c, k)]. *)
Definition writes (c k : str) (call : StoreCall) : bool :=
  match call with
  | CallSaveKnowledge _ c' k' _ => bool_decide (c' = c) && bool_decide (k' = k)
  | _ => false
  end.

(** The facts of the knowledge table, without their rowids. *)
Definition facts (d : Database) : list (str * str * str) :=
  (fun f => (category f, key f, value f)) <$> knowledge d.

(** The [(category, key)] pairs of the rows of the knowledge table. *)
Definition fact_keys (d : Database) : list (str * str) :=
  (fun f => (category f, key f)) <$> knowledge d.

(** [a] is not older than [b], by their timestamps. *)
Definition not_older (a b : ConversationEntry) : Prop :=
  timestamp b ≤ timestamp a.

(** The rows of the knowledge table that hold the fact [(c, k)]. *)
Definition facts_for (c k : str) (d : Database) : list KnowledgeFact :=
  List.filter (same_key c k) (knowledge d).

(** Surroundings for the examples: no fault, the clock reading [now], the
    completion endpoint answering [answer] to every request. *)
Definition quiet (now : Z) (answer : str) : Env :=
  {| io := fun _ => no_faults; clock := now;
     complete := fun _ => Return answer |}.

(** Surroundings in which the completion endpoint cannot be reached: every
    request raises [e]. *)
Definition offline (now : Z) (e : str) : Env :=
  {| io := fun _ => no_faults; clock := now; complete := fun _ => Raise e |}.

(** The world at the first start of the service. *)
Definition fresh : World := {| db := init_database None; sent := [] |}.

(* ===================================================================== *)
(** ** The module-level [chatbot] and the route [/api/history] *)
(* ===================================================================== *)

(** The module-level [try] block that creates [chatbot]: [groq_api_key] is
    what [os.getenv("GROQ_API_KEY")] gives, [construct] what running
    [Chatbot(groq_api_key)] does (it opens the database and builds the
    client, and either may raise).  The result says whether [chatbot] is a
    [Chatbot] ([True]) or [None]. *)
Definition create_chatbot (groq_api_key : option str)
    (construct : outcome unit) : bool :=
  match groq_api_key with
  | None => false
  | Some api_key =>
      if truthy api_key
      then match construct with Return _ => true | Raise _ => false end
      else false
  end.

(** The answers of [/api/chat] that do not depend on the message. *)
Definition not_initialised : HttpResponse :=
  {| status := 500; field := py "error";
     text := py "Chatbot não inicializado corretamente" |}.

Definition bad_request : HttpResponse :=
  {| status := 400; field := py "error";
     text := py "Formato de requisição inválido. Envie um JSON com o campo 'message'" |}.

Definition server_error (e : str) : HttpResponse :=
  {| status := 500; field := py "error"; text := e |}.

(** The JSON answers of [/api/history]: an error with its status, or the
    list under ["history"], each entry with its ["user_message"] and its
    ["ai_response"]. *)
Inductive HistoryResponse : Type :=
| HistoryError (status : Z) (text : str)
| History (formatted_history : list (str * str)).

(** The route [GET /api/history] under the global error handler.
    [limit_arg] is the query parameter [limit] read as an [int], when it is
    there and is one: [request.args.get('limit', default=10, type=int)]. *)
Definition get_history (E : Env) (chatbot : bool) (limit_arg : option Z)
  : M World HistoryResponse :=
  try_except
    (if negb chatbot then
       mret (HistoryError 500 (py "Chatbot não inicializado corretamente"))
     else
       let limit := default 10 limit_arg in
       history ← on_db (get_conversation_history (io E AtHistory) limit);
       mret (History ((fun msg => (msg.1, msg.2)) <$> history)))
    (fun e => mret (HistoryError 500 e)).

(* ===================================================================== *)
(** ** Threads and store calls made one after the other *)
(* ===================================================================== *)

(** The store call a thread makes, as a call made alone and without a
    fault, the clock reading [now] when its statement runs. *)
Definition store_call_of (e : Threads.call * Z) : StoreCall :=
  match e.1 with
  | Threads.SaveConversation um ar =>
      CallSaveConversation no_faults e.2 um ar
  | Threads.SaveKnowledge c k v => CallSaveKnowledge no_faults c k v
  | Threads.GetKnowledge c k => CallGetKnowledge no_faults c k
  | Threads.GetConversationHistory limit =>
      CallGetConversationHistory no_faults limit
  end.

(** [db_lock] is held only while a thread is inside a store method. *)
Definition held (σ : Threads.Config) : Prop :=
  Threads.locked σ = true ->
  ∃ i t, Threads.pool σ !! i = Some t ∧ Threads.critical t.2 = true.

(** The database file is the outcome of calls made one after the other. *)
Definition serial (calls : list Threads.call) (d0 : Database)
    (σ : Threads.Config) : Prop :=
  ∃ log : list (Threads.call * Z),
    Threads.file σ = fold_left after_call (store_call_of <$> log) d0
    ∧ Forall (fun e => e.1 ∈ calls) log.





(** The number of [sep] in [s]. *)
Definition count_char (sep : N) (s : str) : nat :=
  length (List.filter (N.eqb sep) s).

(** The pairs a list of rows of [conversations] is returned as. *)
Definition pairs (rows : list ConversationEntry) : list (str * str) :=
  (fun r => (user_message r, ai_response r)) <$> rows.

(** The rowids of a table are in increasing order, positive, and not above
    the counter of the table. *)
Definition rowids_ok (ids : list Z) (seq : Z) : Prop :=
  StronglySorted Z.lt ids ∧ Forall (fun id => 0 < id ≤ seq) ids.

(** No thread is left to run. *)
Definition finished (p : Threads.pc) : bool :=
  match p with Threads.Done _ => true | _ => false end.

(* ===================================================================== *)
(** * Properties *)
(* ===================================================================== *)

Arguments insert_conversation : simpl never.
Arguments insert_or_replace_knowledge : simpl never.
Arguments select_value : simpl never.
Arguments select_history : simpl never.

(** Unfolds a store method into the case analysis on its steps. *)
Ltac store_steps :=
  unfold save_conversation, save_knowledge, get_knowledge,
    get_conversation_history, try_except, lift, get, put;
  unfold mbind, mret, M_bind, M_ret, outcome_bind, outcome_ret.

(** One step of a method: it goes through, or raises and the [except] clause
    returns; [tac] closes the goal in the second case. *)
Ltac store_step o tac :=
  destruct o as [?|?] eqn:?; simpl; [| solve [tac]].

Ltac write_done :=
  do 2 eexists; split_and!; [reflexivity | auto | first [done | auto]].

Ltac read_done := eexists; split; [reflexivity | auto].

(** ** The store methods never raise *)

Section StoreMethods.
Context (io : faults).

(** A write changes the database exactly when its transaction was
    committed, and reports success only if every step went through. *)
Lemma save_knowledge_cases c k v d :
  ∃ b d', save_knowledge io c k v d = (Return b, d')
    ∧ (d' = d ∨ insert_or_replace_knowledge c k v d = Return d')
    ∧ (b = true → insert_or_replace_knowledge c k v d = Return d').
Proof.
  store_steps.
  store_step (io Connect) write_done.
  store_step (io Execute) write_done.
  store_step (insert_or_replace_knowledge c k v d) write_done.
  store_step (io Commit) write_done.
  store_step (io Close) write_done.
  write_done.
Qed.

Lemma save_conversation_cases now um ar d :
  ∃ b d', save_conversation io now um ar d = (Return b, d')
    ∧ (d' = d ∨ insert_conversation now um ar d = Return d')
    ∧ (b = true → insert_conversation now um ar d = Return d').
Proof.
  store_steps.
  store_step (io Connect) write_done.
  store_step (io Execute) write_done.
  store_step (insert_conversation now um ar d) write_done.
  store_step (io Commit) write_done.
  store_step (io Close) write_done.
  write_done.
Qed.

(** A read leaves the database as it is. *)
Lemma get_knowledge_cases c k d :
  ∃ r, get_knowledge io c k d = (Return r, d)
    ∧ (r = None ∨ select_value c k d = Return r).
Proof.
  store_steps.
  store_step (io Connect) read_done.
  store_step (io Execute) read_done.
  store_step (select_value c k d) read_done.
  store_step (io Fetch) read_done.
  store_step (io Close) read_done.
  read_done.
Qed.

Lemma get_conversation_history_cases limit d :
  ∃ r, get_conversation_history io limit d = (Return r, d)
    ∧ (r = [] ∨ select_history limit d = Return r).
Proof.
  store_steps.
  store_step (io Connect) read_done.
  store_step (io Execute) read_done.
  store_step (select_history limit d) read_done.
  store_step (io Fetch) read_done.
  store_step (io Close) read_done.
  read_done.
Qed.

End StoreMethods.

(** ** The knowledge table *)

Lemma same_key_spec c k f :
  same_key c k f = true ↔ category f = c ∧ key f = k.
Proof.
  unfold same_key.
  rewrite andb_true_iff, !bool_decide_eq_true. done.
Qed.



Lemma delete_conflicts_sublist c k l : delete_conflicts c k l `sublist_of` l.
Proof.
  induction l as [|f l IH]; simpl; [constructor|].
  destruct (same_key c k f); by constructor.
Qed.

Lemma elem_of_delete_conflicts c k l f :
  f ∈ delete_conflicts c k l ↔ f ∈ l ∧ same_key c k f = false.
Proof.
  induction l as [|g l IH]; simpl.
  - rewrite elem_of_nil. tauto.
  - destruct (same_key c k g) eqn:Hg; rewrite ?elem_of_cons, IH.
    + split; [tauto|]. intros [[->|?] ?]; [congruence|tauto].
    + split; [|tauto]. intros [->|?]; tauto.
Qed.

Lemma filter_delete_conflicts c k l :
  List.filter (same_key c k) (delete_conflicts c k l) = [].
Proof.
  induction l as [|f l IH]; simpl; [done|].
  destruct (same_key c k f) eqn:Hf; simpl; [done|]. by rewrite Hf.
Qed.

Lemma first_value_delete_conflicts c k l :
  first_value c k (delete_conflicts c k l) = None.
Proof.
  induction l as [|f l IH]; simpl; [done|].
  destruct (same_key c k f) eqn:Hf; simpl; [done|]. by rewrite Hf.
Qed.

Lemma first_value_app c k l1 l2 :
  first_value c k (l1 ++ l2)
  = match first_value c k l1 with
    | Some v => Some v
    | None => first_value c k l2
    end.
Proof.
  induction l1 as [|f l1 IH]; simpl; [done|].
  by destruct (same_key c k f).
Qed.

(** A lookup for another key does not see the rows of [(c, k)]. *)
Lemma first_value_delete_other c k c' k' l :
  (c', k') ≠ (c, k) →
  first_value c' k' (delete_conflicts c k l) = first_value c' k' l.
Proof.
  intros Hne. induction l as [|f l IH]; simpl; [done|].
  destruct (same_key c k f) eqn:Hf; simpl.
  - apply same_key_spec in Hf as [<- <-].
    destruct (same_key c' k' f) eqn:Hf'; [|exact IH].
    apply same_key_spec in Hf' as [Hc Hk]. destruct Hne. by rewrite Hc, Hk.
  - by rewrite IH.
Qed.

Lemma largest_ge (ids : list Z) (x : Z) : x ∈ ids → x ≤ largest ids.
Proof.
  unfold largest. induction 1 as [x l|x y l Hx IH]; simpl; lia.
Qed.

(** What a successful [INSERT OR REPLACE] leaves. *)
Lemma insert_or_replace_knowledge_inv c k v d d' :
  insert_or_replace_knowledge c k v d = Return d' →
  ∃ id,
    knowledge d'
    = delete_conflicts c k (knowledge d)
      ++ [{| fact_id := id; category := c; key := k; value := v |}]
    ∧ knowledge_seq d' = id
    ∧ conversations d' = conversations d
    ∧ conversations_seq d' = conversations_seq d
    ∧ bind_text c = Return tt ∧ bind_text k = Return tt
    ∧ (∀ f, f ∈ knowledge d → fact_id f < id).
Proof.
  unfold insert_or_replace_knowledge.
  unfold mbind, mret, outcome_bind, outcome_ret.
  destruct (bind_text c) as [[]|?]; [|done].
  destruct (bind_text k) as [[]|?]; [|done].
  destruct (bind_text v) as [[]|?]; [|done].
  unfold next_rowid.
  destruct (max_rowid <=? _) eqn:Hfull; [done|].
  intros [= <-]. simpl. eexists. split_and!; try done.
  intros f Hf.
  assert (fact_id f ≤ largest (fact_id <$> knowledge d)); [|lia].
  by apply largest_ge, list_elem_of_fmap_2.
Qed.

Lemma insert_conversation_inv now um ar d d' :
  insert_conversation now um ar d = Return d' →
  ∃ id,
    conversations d'
    = conversations d
      ++ [{| conv_id := id; user_message := um; ai_response := ar;
             timestamp := now |}]
    ∧ conversations_seq d' = id
    ∧ knowledge d' = knowledge d
    ∧ knowledge_seq d' = knowledge_seq d
    ∧ (∀ r, r ∈ conversations d → conv_id r < id).
Proof.
  unfold insert_conversation.
  unfold mbind, mret, outcome_bind, outcome_ret.
  destruct (bind_text um) as [[]|?]; [|done].
  destruct (bind_text ar) as [[]|?]; [|done].
  unfold next_rowid.
  destruct (max_rowid <=? _) eqn:Hfull; [done|].
  intros [= <-]. simpl. eexists. split_and!; try done.
  intros r Hr.
  assert (conv_id r ≤ largest (conv_id <$> conversations d)); [|lia].
  by apply largest_ge, list_elem_of_fmap_2.
Qed.

(** [UNIQUE(category, key)] survives an [INSERT OR REPLACE]. *)
Lemma insert_or_replace_knowledge_unique c k v d d' :
  insert_or_replace_knowledge c k v d = Return d' →
  NoDup (fact_keys d) → NoDup (fact_keys d').
Proof.
  intros (id & Hk & _)%insert_or_replace_knowledge_inv Hd.
  unfold fact_keys in *. rewrite Hk, fmap_app. simpl.
  apply list.NoDup_app. split_and!.
  - eapply sublist_NoDup; [exact Hd|].
    apply fmap_sublist, delete_conflicts_sublist.
  - intros ck (f & -> & Hf)%list_elem_of_fmap.
    apply elem_of_delete_conflicts in Hf as [_ Hf].
    rewrite list_elem_of_singleton. intros [= Hc Hkey].
    assert (same_key c k f = true) by by apply same_key_spec.
    congruence.
  - apply NoDup_singleton.
Qed.

(** After a successful save the table holds one row for [(c, k)], the new
    one, and a lookup finds its value. *)
Lemma insert_or_replace_knowledge_lookup c k v d d' :
  insert_or_replace_knowledge c k v d = Return d' →
  value <$> facts_for c k d' = [v]
  ∧ select_value c k d' = Return (Some v).
Proof.
  intros (id & Hk & _ & _ & _ & Hc & Hkey & _)%insert_or_replace_knowledge_inv.
  assert (same_key c k
            {| fact_id := id; category := c; key := k; value := v |} = true)
    as Hnew by by apply same_key_spec.
  split.
  - unfold facts_for. rewrite Hk, List.filter_app, filter_delete_conflicts.
    simpl. by rewrite Hnew.
  - unfold select_value, mbind, mret, outcome_bind, outcome_ret.
    rewrite Hc, Hkey, Hk, first_value_app, first_value_delete_conflicts.
    simpl. by rewrite Hnew.
Qed.



Lemma get_knowledge_no_faults c k d :
  get_knowledge no_faults c k d
  = (match select_value c k d with
     | Return r => Return r
     | Raise _ => Return None
     end, d).
Proof.
  store_steps. simpl. by destruct (select_value c k d).
Qed.


(** The rowid of the fact is not kept by a replay. *)
Lemma insert_or_replace_knowledge_new_rowid c k v d d1 d2 :
  insert_or_replace_knowledge c k v d = Return d1 →
  insert_or_replace_knowledge c k v d1 = Return d2 →
  ∀ f1 f2, f1 ∈ facts_for c k d1 → f2 ∈ facts_for c k d2 →
  fact_id f1 < fact_id f2.
Proof.
  intros H1 H2 f1 f2.
  destruct (insert_or_replace_knowledge_inv _ _ _ _ _ H1)
    as (id1 & Hk1 & _).
  destruct (insert_or_replace_knowledge_inv _ _ _ _ _ H2)
    as (id2 & Hk2 & _ & _ & _ & _ & _ & Hlt).
  assert (same_key c k
            {| fact_id := id1; category := c; key := k; value := v |} = true)
    as Hnew1 by by apply same_key_spec.
  assert (same_key c k
            {| fact_id := id2; category := c; key := k; value := v |} = true)
    as Hnew2 by by apply same_key_spec.
  unfold facts_for.
  rewrite Hk2, Hk1, !List.filter_app, !filter_delete_conflicts. simpl.
  rewrite Hnew1, Hnew2. simpl.
  rewrite !list_elem_of_singleton. intros -> ->. simpl.
  apply (Hlt {| fact_id := id1; category := c; key := k; value := v |}).
  rewrite Hk1, elem_of_app, list_elem_of_singleton. by right.
Qed.

(** ** [UNIQUE(category, key)] as an invariant of the store *)

Lemma after_call_unique d call :
  NoDup (fact_keys d) → NoDup (fact_keys (after_call d call)).
Proof.
  intros Hd. destruct call as [io now um ar|io c k v|io c k|io limit]; simpl.
  - destruct (save_conversation_cases io now um ar d)
      as (b & d' & -> & [->|Hins] & _); simpl; [done|].
    apply insert_conversation_inv in Hins as (id & _ & _ & Hk & _).
    unfold fact_keys. by rewrite Hk.
  - destruct (save_knowledge_cases io c k v d)
      as (b & d' & -> & [->|Hins] & _); simpl; [done|].
    by eapply insert_or_replace_knowledge_unique.
  - by destruct (get_knowledge_cases io c k d) as (r & -> & _).
  - by destruct (get_conversation_history_cases io limit d) as (r & -> & _).
Qed.

Lemma after_calls_snoc cs call :
  after_calls (cs ++ [call]) = after_call (after_calls cs) call.
Proof. unfold after_calls. by rewrite fold_left_app. Qed.

Lemma after_calls_unique cs : NoDup (fact_keys (after_calls cs)).
Proof.
  induction cs as [|call cs IH] using rev_ind.
  - apply NoDup_nil_2.
  - rewrite after_calls_snoc. by apply after_call_unique.
Qed.

(** A fact that no call wrote is not in the table. *)
Lemma after_call_never_written c k d call :
  writes c k call = false →
  first_value c k (knowledge d) = None →
  first_value c k (knowledge (after_call d call)) = None.
Proof.
  intros Hw Hd.
  destruct call as [io now um ar|io c' k' v|io c' k'|io limit]; simpl.
  - destruct (save_conversation_cases io now um ar d)
      as (b & d' & -> & [->|Hins] & _); simpl; [done|].
    apply insert_conversation_inv in Hins as (id & _ & _ & Hk & _).
    by rewrite Hk.
  - destruct (save_knowledge_cases io c' k' v d)
      as (b & d' & -> & [->|Hins] & _); simpl; [done|].
    apply insert_or_replace_knowledge_inv in Hins as (id & Hk & _).
    simpl in Hw. rewrite Hk, first_value_app.
    assert ((c, k) ≠ (c', k')) as Hne.
    { intros [= -> ->]. by rewrite !bool_decide_eq_true_2 in Hw. }
    rewrite first_value_delete_other, Hd by done. simpl.
    destruct (same_key c k _) eqn:Hsame; [|done].
    apply same_key_spec in Hsame as [? ?]. simpl in *. congruence.
  - by destruct (get_knowledge_cases io c' k' d) as (r & -> & _).
  - by destruct (get_conversation_history_cases io limit d) as (r & -> & _).
Qed.

Lemma after_calls_never_written c k cs :
  (∀ call, call ∈ cs → writes c k call = false) →
  first_value c k (knowledge (after_calls cs)) = None.
Proof.
  induction cs as [|call cs IH] using rev_ind; intros Hw; [done|].
  rewrite after_calls_snoc. apply after_call_never_written.
  - apply Hw. rewrite elem_of_app, list_elem_of_singleton. by right.
  - apply IH. intros call' Hin. apply Hw. rewrite elem_of_app. by left.
Qed.

Lemma get_knowledge_absent io c k d :
  first_value c k (knowledge d) = None →
  get_knowledge io c k d = (Return None, d).
Proof.
  intros Hd. destruct (get_knowledge_cases io c k d) as (r & -> & [->|Hsel]);
    [done|].
  unfold select_value, mbind, mret, outcome_bind, outcome_ret in Hsel.
  destruct (bind_text c) as [[]|?]; [|done].
  destruct (bind_text k) as [[]|?]; [|done].
  rewrite Hd in Hsel. by injection Hsel as <-.
Qed.

(** A step that raises makes the method return its sentinel. *)
Lemma get_knowledge_fault io p e c k d :
  io p = Raise e → p ≠ Commit → get_knowledge io c k d = (Return None, d).
Proof.
  intros Hp Hne. store_steps.
  store_step (io Connect) trivial.
  store_step (io Execute) trivial.
  store_step (select_value c k d) trivial.
  store_step (io Fetch) trivial.
  store_step (io Close) trivial.
  destruct p; congruence.
Qed.

Lemma get_conversation_history_fault io p e limit d :
  io p = Raise e → p ≠ Commit →
  get_conversation_history io limit d = (Return [], d).
Proof.
  intros Hp Hne. store_steps.
  store_step (io Connect) trivial.
  store_step (io Execute) trivial.
  store_step (select_history limit d) trivial.
  store_step (io Fetch) trivial.
  store_step (io Close) trivial.
  destruct p; congruence.
Qed.

Lemma save_knowledge_fault io p e c k v d :
  io p = Raise e → p ≠ Fetch →
  ∃ d', save_knowledge io c k v d = (Return false, d').
Proof.
  intros Hp Hne. store_steps.
  store_step (io Connect) eauto.
  store_step (io Execute) eauto.
  store_step (insert_or_replace_knowledge c k v d) eauto.
  store_step (io Commit) eauto.
  store_step (io Close) eauto.
  destruct p; congruence.
Qed.

Lemma save_conversation_fault io p e now um ar d :
  io p = Raise e → p ≠ Fetch →
  ∃ d', save_conversation io now um ar d = (Return false, d').
Proof.
  intros Hp Hne. store_steps.
  store_step (io Connect) eauto.
  store_step (io Execute) eauto.
  store_step (insert_conversation now um ar d) eauto.
  store_step (io Commit) eauto.
  store_step (io Close) eauto.
  destruct p; congruence.
Qed.

(** ** Saving and looking up knowledge *)




(** C2.  At most one row of the knowledge table holds a given
    [(category, key)]: each of [save_knowledge], [save_conversation],
    [get_knowledge] and [get_conversation_history], whatever happens to it,
    keeps it so, and so it is in every database reached from the one
    [_init_database] creates. *)
Theorem C2_unique_category_key
    (d : Database) (call : StoreCall) (cs : list StoreCall) :
  NoDup (fact_keys d) →
  NoDup (fact_keys (after_call d call))
  ∧ NoDup (fact_keys (after_calls cs)).
Proof.
  intros Hd. split.
  - by apply after_call_unique.
  - apply after_calls_unique.
Qed.

Lemma C2_unique_category_key_witness :
  NoDup (fact_keys
           (after_call (init_database None)
              (CallSaveKnowledge no_faults (py "a") (py "b") (py "c"))))
  ∧ NoDup (fact_keys
             (after_calls
                [CallSaveKnowledge no_faults (py "a") (py "b") (py "c");
                 CallSaveKnowledge no_faults (py "a") (py "b") (py "d")])).
Proof.
  apply (C2_unique_category_key (init_database None)).
  vm_compute. constructor.
Defined.

(** ** Failures at the store boundary *)

(** C5.  [get_knowledge(category, key)] for a pair that no call has written
    returns [None], it does not raise.  No store method ever raises; when a
    step of a method raises (the exception [e] at the step [p], which the
    method runs), the method returns its sentinel: [None] for
    [get_knowledge], the empty list for [get_conversation_history], [False]
    for the two writes.  A lookup that failed therefore returns what a
    lookup of a pair never written returns. *)
Theorem C5_failures_become_sentinels
    (cs : list StoreCall) (c k : str) (io : faults) (p : phase) (e : str)
    (d : Database) (now limit : Z) (um ar v : str) :
  (∀ call, call ∈ cs → writes c k call = false) →
  io p = Raise e →
  (∀ io', get_knowledge io' c k (after_calls cs)
          = (Return None, after_calls cs))
  ∧ (∀ io' c' k' d', ∃ r, get_knowledge io' c' k' d' = (Return r, d'))
  ∧ (∀ io' n d', ∃ r, get_conversation_history io' n d' = (Return r, d'))
  ∧ (∀ io' c' k' v' d', ∃ b d'',
       save_knowledge io' c' k' v' d' = (Return b, d''))
  ∧ (∀ io' t m a d', ∃ b d'',
       save_conversation io' t m a d' = (Return b, d''))
  ∧ (p ≠ Commit → get_knowledge io c k d = (Return None, d))
  ∧ (p ≠ Commit → get_conversation_history io limit d = (Return [], d))
  ∧ (p ≠ Fetch → ∃ d', save_knowledge io c k v d = (Return false, d'))
  ∧ (p ≠ Fetch → ∃ d', save_conversation io now um ar d = (Return false, d'))
  ∧ (p ≠ Commit →
     (get_knowledge io c k d).1
     = (get_knowledge no_faults c k (after_calls cs)).1).
Proof.
  intros Hnever Hp.
  pose proof (after_calls_never_written c k cs Hnever) as Habsent.
  split_and!.
  - intros io'. by apply get_knowledge_absent.
  - intros io' c' k' d'.
    destruct (get_knowledge_cases io' c' k' d') as (r & Hr & _). eauto.
  - intros io' n d'.
    destruct (get_conversation_history_cases io' n d') as (r & Hr & _). eauto.
  - intros io' c' k' v' d'.
    destruct (save_knowledge_cases io' c' k' v' d') as (b & d'' & Hr & _).
    eauto.
  - intros io' t m a d'.
    destruct (save_conversation_cases io' t m a d') as (b & d'' & Hr & _).
    eauto.
  - intros Hne. by eapply get_knowledge_fault.
  - intros Hne. by eapply get_conversation_history_fault.
  - intros Hne. by eapply save_knowledge_fault.
  - intros Hne. by eapply save_conversation_fault.
  - intros Hne. rewrite (get_knowledge_fault io p e) by done.
    by rewrite (get_knowledge_absent no_faults).
Qed.

Lemma C5_failures_become_sentinels_witness :
  (∀ io', get_knowledge io' (py "fatos") (py "moeda")
            (after_calls
               [CallSaveKnowledge no_faults (py "fatos") (py "capital")
                  (py "Paris")])
          = (Return None,
             after_calls
               [CallSaveKnowledge no_faults (py "fatos") (py "capital")
                  (py "Paris")]))
  ∧ get_knowledge (fault_at Execute (py "database is locked"))
      (py "fatos") (py "moeda")
      (after_calls
         [CallSaveKnowledge no_faults (py "fatos") (py "moeda") (py "euro")])
    = (Return None,
       after_calls
         [CallSaveKnowledge no_faults (py "fatos") (py "moeda") (py "euro")]).
Proof.
  destruct (C5_failures_become_sentinels
              [CallSaveKnowledge no_faults (py "fatos") (py "capital")
                 (py "Paris")]
              (py "fatos") (py "moeda")
              (fault_at Execute (py "database is locked")) Execute
              (py "database is locked")
              (after_calls
                 [CallSaveKnowledge no_faults (py "fatos") (py "moeda")
                    (py "euro")])
              0 2 [] [] [])
    as (Hnever & _ & _ & _ & _ & Hfault & _).
  - intros call Hin. apply list_elem_of_singleton in Hin as ->.
    vm_compute. reflexivity.
  - vm_compute. reflexivity.
  - split; [exact Hnever | apply Hfault; discriminate].
Defined.

(** ** The conversation history *)

Lemma sorter_insert_perm r l : sorter_insert r l ≡ₚ r :: l.
Proof.
  induction l as [|x l IH]; simpl; [done|].
  destruct (timestamp x <? timestamp r); [done|].
  rewrite IH. apply Permutation_swap.
Qed.

Lemma sorter_insert_sorted r l :
  StronglySorted not_older l → StronglySorted not_older (sorter_insert r l).
Proof.
  induction l as [|x l IH]; simpl; intros Hl.
  - repeat constructor.
  - apply StronglySorted_cons in Hl as [Hx Hl].
    destruct (timestamp x <? timestamp r) eqn:Hlt.
    + apply Z.ltb_lt in Hlt. constructor; [by constructor|].
      constructor; [unfold not_older; lia|].
      eapply Forall_impl; [exact Hx|]. unfold not_older. simpl. lia.
    + apply Z.ltb_ge in Hlt. constructor; [by apply IH|].
      rewrite sorter_insert_perm. by constructor.
Qed.

Lemma order_by_snoc table r :
  order_by_timestamp_desc (table ++ [r])
  = sorter_insert r (order_by_timestamp_desc table).
Proof. unfold order_by_timestamp_desc. by rewrite fold_left_app. Qed.

Lemma order_by_perm table : order_by_timestamp_desc table ≡ₚ table.
Proof.
  induction table as [|r table IH] using rev_ind; [done|].
  rewrite order_by_snoc, sorter_insert_perm, IH.
  by rewrite Permutation_cons_append.
Qed.

Lemma order_by_sorted table :
  StronglySorted not_older (order_by_timestamp_desc table).
Proof.
  induction table as [|r table IH] using rev_ind; [constructor|].
  rewrite order_by_snoc. by apply sorter_insert_sorted.
Qed.

(** A row newer than all the rows of the sorter goes first... *)
Lemma sorter_insert_newest r l :
  Forall (λ x, timestamp x < timestamp r) l → sorter_insert r l = r :: l.
Proof.
  destruct 1 as [|x l Hx _]; simpl; [done|].
  by apply Z.ltb_lt in Hx as ->.
Qed.

(** ... and a row that is not newer than any of them goes last, also when it
    was inserted in the same second. *)
Lemma sorter_insert_not_newer r l :
  Forall (λ x, timestamp r ≤ timestamp x) l → sorter_insert r l = l ++ [r].
Proof.
  induction 1 as [|x l Hx _ IH]; simpl; [done|].
  apply Z.ltb_ge in Hx as ->. by rewrite IH.
Qed.

(** When every row is newer than the rows before it, the history is the
    table from its last row to its first. *)
Lemma order_by_increasing table :
  StronglySorted (λ a b, timestamp a < timestamp b) table →
  order_by_timestamp_desc table = reverse table.
Proof.
  induction table as [|r table IH] using rev_ind; intros Hs; [done|].
  apply StronglySorted_app in Hs as (Hlt & Hs & _).
  rewrite order_by_snoc, IH, reverse_snoc by done.
  apply sorter_insert_newest, Forall_forall. intros x Hx.
  apply Hlt; [by apply elem_of_reverse|]. by apply list_elem_of_singleton.
Qed.

(** When no row is newer than the rows before it, as when all were inserted
    in the same second, the history is the table from its first row on. *)
Lemma order_by_not_increasing table :
  StronglySorted not_older table → order_by_timestamp_desc table = table.
Proof.
  induction table as [|r table IH] using rev_ind; intros Hs; [done|].
  apply StronglySorted_app in Hs as (Hle & Hs & _).
  rewrite order_by_snoc, IH by done.
  apply sorter_insert_not_newer, Forall_forall. intros x Hx.
  apply (Hle x r); [done|]. by apply list_elem_of_singleton.
Qed.

Lemma limit_rows_length {A} (limit : Z) (l : list A) :
  0 ≤ limit → (length (limit_rows limit l) ≤ Z.to_nat limit)%nat.
Proof.
  intros Hl. unfold limit_rows.
  destruct (limit <? 0) eqn:Hneg; [apply Z.ltb_lt in Hneg; lia|].
  rewrite length_take. lia.
Qed.

Lemma limit_rows_sublist {A} (limit : Z) (l : list A) :
  limit_rows limit l `sublist_of` l.
Proof.
  unfold limit_rows. destruct (limit <? 0); [done|]. apply sublist_take.
Qed.

Lemma StronglySorted_sublist {A} (R : relation A) (l k : list A) :
  l `sublist_of` k → StronglySorted R k → StronglySorted R l.
Proof.
  induction 1 as [|x l k Hlk IH|x l k Hlk IH]; intros Hk; [done|..].
  - apply StronglySorted_cons in Hk as [Hx Hk].
    apply StronglySorted_cons. split; [|by apply IH].
    eapply Forall_forall. intros y Hy.
    eapply (proj1 (Forall_forall _ _) Hx). by eapply elem_of_sublist.
  - apply StronglySorted_cons in Hk as [_ Hk]. by apply IH.
Qed.

(** What [get_conversation_history(limit)] returns, for a limit that is not
    negative: at most [limit] pairs, those of rows of the table, in an order
    in which the timestamps never grow; nothing when the table is empty. *)
Lemma get_conversation_history_bounded io limit d :
  0 ≤ limit →
  ∃ entries,
    get_conversation_history io limit d
    = (Return ((λ r, (user_message r, ai_response r)) <$> entries), d)
    ∧ (length entries ≤ Z.to_nat limit)%nat
    ∧ entries `sublist_of` order_by_timestamp_desc (conversations d)
    ∧ StronglySorted not_older entries
    ∧ (conversations d = [] → entries = []).
Proof.
  intros Hl.
  destruct (get_conversation_history_cases io limit d) as (r & -> & [->|Hr]).
  { exists []. split_and!; try done; [simpl; lia|apply sublist_nil_l|constructor]. }
  unfold select_history, mbind, mret, outcome_bind, outcome_ret in Hr.
  destruct (bind_int limit) as [[]|?]; [|done]. injection Hr as <-.
  exists (select_history_rows limit d). unfold select_history_rows.
  split_and!; [done|by apply limit_rows_length|apply limit_rows_sublist|..].
  - eapply StronglySorted_sublist; [apply limit_rows_sublist|].
    apply order_by_sorted.
  - intros ->. unfold limit_rows. simpl.
    destruct (limit <? 0); [done|apply take_nil].
Qed.

(** X23.  Without faults, and the rows of the table each newer than the one
    before, the history is most recent first. *)
Lemma get_conversation_history_increasing limit d :
  0 ≤ limit ≤ max_rowid →
  StronglySorted (λ a b, timestamp a < timestamp b) (conversations d) →
  get_conversation_history no_faults limit d
  = (Return ((λ r, (user_message r, ai_response r))
               <$> take (Z.to_nat limit) (reverse (conversations d))), d).
Proof.
  intros Hl Hs. store_steps. simpl.
  unfold select_history, mbind, mret, outcome_bind, outcome_ret.
  unfold bind_int.
  destruct (limit <? - max_rowid - 1) eqn:H1; [apply Z.ltb_lt in H1; lia|].
  destruct (max_rowid <? limit) eqn:H2; [apply Z.ltb_lt in H2; lia|].
  simpl. unfold select_history_rows, limit_rows.
  destruct (limit <? 0) eqn:H3; [apply Z.ltb_lt in H3; lia|].
  by rewrite order_by_increasing.
Qed.

(** Without faults, and the rows of the table all of the same second, the
    history is oldest first, and a limit cuts the most recent rows off. *)
Lemma get_conversation_history_same_second limit d now :
  0 ≤ limit ≤ max_rowid →
  Forall (λ r, timestamp r = now) (conversations d) →
  get_conversation_history no_faults limit d
  = (Return ((λ r, (user_message r, ai_response r))
               <$> take (Z.to_nat limit) (conversations d)), d).
Proof.
  intros Hl Hs. store_steps. simpl.
  unfold select_history, mbind, mret, outcome_bind, outcome_ret.
  unfold bind_int.
  destruct (limit <? - max_rowid - 1) eqn:H1; [apply Z.ltb_lt in H1; lia|].
  destruct (max_rowid <? limit) eqn:H2; [apply Z.ltb_lt in H2; lia|].
  simpl. unfold select_history_rows, limit_rows.
  destruct (limit <? 0) eqn:H3; [apply Z.ltb_lt in H3; lia|].
  rewrite order_by_not_increasing; [done|].
  clear -Hs. induction Hs as [|r l Hr Hl IH]; constructor; [done|].
  eapply Forall_impl; [exact Hl|]. unfold not_older. simpl. lia.
Qed.

(** C4 (the code departs from the specification).  Three conversations
    saved within one second, then [get_conversation_history(2)]: the method
    returns the two oldest conversations, the older one first; the most
    recent conversation is not returned.  The specification asks for the
    most recent ones, most recent first.  (What does hold is
    [get_conversation_history_bounded]; the order asked for is there when no
    two rows share a second: [get_conversation_history_increasing].) *)
Theorem C4_history_same_second_oldest_first :
  (get_conversation_history no_faults 2
     (after_calls
        [CallSaveConversation no_faults 1700000000 (py "um") (py "A");
         CallSaveConversation no_faults 1700000000 (py "dois") (py "B");
         CallSaveConversation no_faults 1700000000 (py "tres") (py "C")])).1
  = Return [(py "um", py "A"); (py "dois", py "B")].
Proof. vm_compute. reflexivity. Qed.

(** ** [process_message] *)

Arguments get_conversation_history : simpl never.
Arguments save_conversation : simpl never.
Arguments save_knowledge : simpl never.
Arguments get_knowledge : simpl never.
Arguments build_messages : simpl never.
Arguments build_context : simpl never.

(** The course of [process_message]: the history is read, the request built
    from it goes out, and either the endpoint raises, or its answer is
    saved (or not, if the save fails) and returned. *)
Lemma process_message_run E um w :
  ∃ historico,
    get_conversation_history (io E AtHistory) 2 (db w)
    = (Return historico, db w)
    ∧ let w1 := {| db := db w; sent := sent w ++ [request_of um historico] |} in
      match complete E (request_of um historico) with
      | Raise e =>
          process_message_body E um w = (Raise e, w1)
          ∧ process_message E um w = (Return (apology e), w1)
      | Return resposta =>
          ∃ b d',
            save_conversation (io E AtSaveConversation) (clock E) um resposta
              (db w) = (Return b, d')
            ∧ process_message_body E um w
              = (Return resposta,
                 {| db := d'; sent := sent w ++ [request_of um historico] |})
            ∧ process_message E um w
              = (Return resposta,
                 {| db := d'; sent := sent w ++ [request_of um historico] |})
      end.
Proof.
  destruct (get_conversation_history_cases (io E AtHistory) 2 (db w))
    as (historico & Hh & _).
  exists historico. split; [done|].
  unfold process_message, process_message_body, try_except, on_db, zoom,
    generate_response, lift, get, put.
  unfold mbind, mret, M_bind, M_ret. rewrite Hh. simpl.
  change {| messages := build_messages um (Some (build_context historico));
            model := py "llama3-8b-8192" |} with (request_of um historico).
  destruct (complete E (request_of um historico)) as [resposta|e]; [|done].
  destruct (save_conversation_cases (io E AtSaveConversation) (clock E) um
              resposta (db w)) as (b & d' & Hs & _).
  exists b, d'. rewrite Hs. done.
Qed.

(** C6.  [process_message] never raises.  If an exception [e] is raised in
    its [try] block (reading the history, building the context, the
    completion call, saving the conversation), it returns the text
    ["Desculpe, ocorreu um erro: "] followed by [str(e)].  The store methods
    turn their own failures into sentinels, so such an exception is one of
    the completion call. *)
Theorem C6_process_message_apologises
    (E : Env) (user_message e : str) (w w' : World) :
  process_message_body E user_message w = (Raise e, w') →
  process_message E user_message w
  = (Return (py "Desculpe, ocorreu um erro: " ++ e), w')
  ∧ (∃ request, sent w' = sent w ++ [request] ∧ complete E request = Raise e)
  ∧ ∀ E' m w0, ∃ text w1, process_message E' m w0 = (Return text, w1).
Proof.
  intros Hbody. split_and!.
  - unfold process_message, try_except. by rewrite Hbody.
  - destruct (process_message_run E user_message w) as (h & _ & Hrun).
    simpl in Hrun.
    destruct (complete E (request_of user_message h)) as [r|e'] eqn:Hc.
    + destruct Hrun as (b & d' & _ & Hb & _). congruence.
    + destruct Hrun as [Hb _]. rewrite Hb in Hbody.
      injection Hbody as <- <-. eauto.
  - intros E' m w0.
    destruct (process_message_run E' m w0) as (h & _ & Hrun). simpl in Hrun.
    destruct (complete E' (request_of m h)) as [r|e'].
    + destruct Hrun as (b & d' & _ & _ & Hp). eauto.
    + destruct Hrun as [_ Hp]. eauto.
Qed.

Lemma C6_process_message_apologises_witness :
  process_message (offline 1700000000 (py "Connection error.")) (py "oi") fresh
  = (Return (py "Desculpe, ocorreu um erro: " ++ py "Connection error."),
     {| db := init_database None; sent := [request_of (py "oi") []] |}).
Proof.
  apply (C6_process_message_apologises
           (offline 1700000000 (py "Connection error.")) (py "oi")
           (py "Connection error.") fresh).
  vm_compute. reflexivity.
Defined.

(** ** The context of a completion request *)

Lemma truthy_app_r (s t : str) : truthy t = true → truthy (s ++ t) = true.
Proof. by destruct s, t. Qed.

(** The context string is empty exactly when the history is. *)
Lemma build_context_truthy historico :
  truthy (build_context historico) = true ↔ historico ≠ [].
Proof.
  unfold build_context. destruct historico as [|m [|m' h]]; simpl.
  - split; [done|]. by intros [].
  - split; [done|]. intros _. unfold fragment.
    apply truthy_app_r. by destruct (m.2).
  - split; [done|]. intros _. unfold fragment.
    rewrite <- !app_assoc. by apply truthy_app_r.
Qed.

(** X24.  The context [process_message] builds and the request it sends: one
    fragment ["{user_message} -> {ai_response}"] for each entry that
    [get_conversation_history(2)] returned, in that order, with one space
    between two fragments; a second system message carries the context
    exactly when the context is not empty. *)
Lemma process_message_context E um w :
  ∃ historico request,
    get_conversation_history (io E AtHistory) 2 (db w)
    = (Return historico, db w)
    ∧ sent (process_message E um w).2 = sent w ++ [request]
    ∧ model request = py "llama3-8b-8192"
    ∧ let contexto :=
        join (py " ") ((λ msg, msg.1 ++ py " -> " ++ msg.2) <$> historico) in
      (contexto ≠ [] ∧
       messages request
       = [persona;
          {| role := py "system";
             content := py "Contexto adicional: " ++ contexto |};
          {| role := py "user"; content := um |}])
      ∨ (contexto = [] ∧
         messages request
         = [persona; {| role := py "user"; content := um |}]).
Proof.
  destruct (process_message_run E um w) as (h & Hh & Hrun). simpl in Hrun.
  exists h, (request_of um h). split; [done|]. split.
  { destruct (complete E (request_of um h)).
    - destruct Hrun as (b & d' & _ & _ & ->). done.
    - destruct Hrun as [_ ->]. done. }
  split; [done|]. simpl.
  unfold request_of, build_messages. simpl.
  destruct (join _ _) as [|c ctx] eqn:Hctx; simpl; [by right|by left].
Qed.

Lemma startswith_app (s t : str) : startswith s (s ++ t) = true.
Proof.
  induction s as [|c s IH]; simpl; [done|]. by rewrite N.eqb_refl, IH.
Qed.

(** The context starts with the fragment of the first entry of the
    history. *)
Lemma build_context_starts m rest :
  startswith (fragment m) (build_context (m :: rest)) = true.
Proof.
  unfold build_context. destruct rest as [|m' rest]; simpl.
  - rewrite <- (app_nil_r (fragment m)) at 2. apply startswith_app.
  - apply startswith_app.
Qed.

(** After an exchange that is newer than every conversation in the table,
    the history starts with that exchange. *)
Lemma history_after_newer_exchange now m1 resp1 d d1 :
  Forall (λ r, timestamp r < now) (conversations d) →
  insert_conversation now m1 resp1 d = Return d1 →
  ∃ rest,
    get_conversation_history no_faults 2 d1
    = (Return ((m1, resp1) :: rest), d1).
Proof.
  intros Hold (id & Hc & _)%insert_conversation_inv.
  exists ((λ r, (user_message r, ai_response r))
            <$> take 1 (order_by_timestamp_desc (conversations d))).
  unfold get_conversation_history. store_steps. simpl.
  unfold select_history, select_history_rows, limit_rows.
  unfold mbind, mret, outcome_bind, outcome_ret. simpl.
  rewrite Hc, order_by_snoc, sorter_insert_newest; [done|].
  by rewrite order_by_perm.
Qed.

(** C7 (the code departs from the specification).  Three exchanges
    answered within one second, then a fourth message: the context of the
    fourth request is made of the first and the second exchange, in that
    order; the third exchange, the one just before, is not in it.  The
    specification asks for the last two exchanges, the last one first.  This
    is the order in which [get_conversation_history] returns rows of the
    same second, again.  The way the context and the request are built from
    what the store returns is as specified: [process_message_context],
    [build_context_truthy], [build_context_starts],
    [history_after_newer_exchange]. *)
Theorem C7_context_omits_last_exchange :
  let E := quiet 1700000000 (py "ok") in
  let w1 := (process_message E (py "um") fresh).2 in
  let w2 := (process_message E (py "dois") w1).2 in
  let w3 := (process_message E (py "tres") w2).2 in
  sent (process_message E (py "quatro") w3).2
  = sent w3
    ++ [{| messages :=
             [persona;
              {| role := py "system";
                 content := py "Contexto adicional: um -> ok dois -> ok" |};
              {| role := py "user"; content := py "quatro" |}];
           model := py "llama3-8b-8192" |}]
  ∧ contains (py "tres -> ok") (py "um -> ok dois -> ok") = false.
Proof. vm_compute. split; reflexivity. Qed.

(** ** The commands of [/api/chat] *)

Lemma startswith_recuperar_not_salvar um :
  startswith (py "/recuperar") um = true →
  startswith (py "/salvar") um = false.
Proof.
  change (py "/recuperar") with (47 :: 114 :: py "ecuperar")%N.
  change (py "/salvar") with (47 :: 115 :: py "alvar")%N.
  destruct um as [|c0 [|c1 um]]; cbn [startswith]; intros H; [done| |].
  - by rewrite andb_false_r in H.
  - apply andb_true_iff in H as [_ H]. apply andb_true_iff in H as [H _].
    apply N.eqb_eq in H as <-. by rewrite andb_false_r.
Qed.

(** The three ways [chat] goes on after [user_message = data['message']]. *)
Lemma chat_response_salvar E um w :
  startswith (py "/salvar") um = true →
  (3 ≤ length (split colon um))%nat →
  let parts := split colon um in
  ∃ success d',
    save_knowledge (io E AtSaveKnowledge) (salvar_categoria parts)
      (salvar_chave parts) (salvar_valor parts) (db w)
    = (Return success, d')
    ∧ chat_response E um w
      = (Return
           (if success
            then py "Conhecimento salvo: " ++ salvar_categoria parts
                 ++ [colon] ++ salvar_chave parts
            else py "Erro ao salvar conhecimento"),
         {| db := d'; sent := sent w |}).
Proof.
  intros Hs Hn parts.
  destruct (save_knowledge_cases (io E AtSaveKnowledge)
              (salvar_categoria parts) (salvar_chave parts)
              (salvar_valor parts) (db w)) as (b & d' & Hrun & _).
  exists b, d'. split; [done|].
  unfold chat_response. rewrite Hs.
  apply Nat.leb_le in Hn. rewrite Hn.
  unfold on_db, zoom. unfold mbind, mret, M_bind, M_ret.
  fold parts. rewrite Hrun. by destruct b.
Qed.

Lemma chat_response_recuperar E um w :
  startswith (py "/recuperar") um = true →
  length (split colon um) = 2%nat →
  let parts := split colon um in
  ∃ valor,
    get_knowledge (io E AtGetKnowledge) (recuperar_categoria parts)
      (recuperar_chave parts) (db w)
    = (Return valor, db w)
    ∧ chat_response E um w
      = (Return
           (match valor with
            | Some (c :: v) => py "Valor recuperado: " ++ c :: v
            | Some [] | None => py "Conhecimento não encontrado"
            end), w).
Proof.
  intros Hr Hn parts.
  destruct (get_knowledge_cases (io E AtGetKnowledge)
              (recuperar_categoria parts) (recuperar_chave parts) (db w))
    as (valor & Hrun & _).
  exists valor. split; [done|].
  unfold chat_response.
  rewrite (startswith_recuperar_not_salvar um Hr), Hr.
  apply Nat.eqb_eq in Hn. rewrite Hn.
  unfold on_db, zoom. unfold mbind, mret, M_bind, M_ret.
  fold parts. rewrite Hrun. destruct w as [d s]. simpl.
  by destruct valor as [[|c v]|].
Qed.

Lemma chat_response_normal E um w :
  (startswith (py "/salvar") um = false
   ∨ (length (split colon um) < 3)%nat) →
  (startswith (py "/recuperar") um = false
   ∨ length (split colon um) ≠ 2%nat) →
  chat_response E um w = process_message E um w.
Proof.
  intros Hs Hr. unfold chat_response.
  assert ((if startswith (py "/recuperar") um
           then if (length (split colon um) =? 2)%nat then false else true
           else true) = true) as Hr'.
  { destruct Hr as [->|Hr]; [done|].
    apply Nat.eqb_neq in Hr. rewrite Hr.
    destruct (startswith (py "/recuperar") um); reflexivity. }
  assert ((if startswith (py "/salvar") um
           then if (3 <=? length (split colon um))%nat then false else true
           else true) = true) as Hs'.
  { destruct Hs as [->|Hs]; [done|].
    apply Nat.leb_gt in Hs. rewrite Hs.
    destruct (startswith (py "/salvar") um); reflexivity. }
  destruct (startswith (py "/salvar") um);
    destruct (startswith (py "/recuperar") um);
    destruct (3 <=? length (split colon um))%nat;
    destruct (length (split colon um) =? 2)%nat; done.
Qed.

(** A normal message makes one completion request. *)
Lemma process_message_sends_one E um w :
  ∃ request, sent (process_message E um w).2 = sent w ++ [request].
Proof.
  destruct (process_message_context E um w) as (h & request & _ & Hs & _).
  eauto.
Qed.

(** C8 (as stated, it fails).  The message ["/salvar lembrete"] begins with
    ["/salvar"], and handling it calls the completion endpoint: it has no
    [':'], so [chat] goes on to [process_message]. *)
Lemma C8_counterexample :
  startswith (py "/salvar") (py "/salvar lembrete") = true
  ∧ sent (chat_response (quiet 1700000000 (py "ok")) (py "/salvar lembrete")
            fresh).2
    ≠ sent fresh.
Proof. split; [vm_compute; reflexivity|vm_compute; discriminate]. Qed.

(** C8 (amended).  A chat message that begins with ["/salvar"] and is split
    by [':'] into at least three parts, or begins with ["/recuperar"] and is
    split by [':'] into exactly two parts, is handled without a completion
    call and with the store only: [save_knowledge] on the parsed category,
    key and value in the first case, [get_knowledge] on the parsed category
    and key in the second, which leaves the world as it is. *)
Theorem C8_commands_bypass_completion (E : Env) (um : str) (w : World) :
  (startswith (py "/salvar") um = true ∧ (3 ≤ length (split colon um))%nat)
  ∨ (startswith (py "/recuperar") um = true
     ∧ length (split colon um) = 2%nat) →
  let parts := split colon um in
  sent (chat_response E um w).2 = sent w
  ∧ conversations (db (chat_response E um w).2) = conversations (db w)
  ∧ (startswith (py "/salvar") um = true →
     db (chat_response E um w).2
     = (save_knowledge (io E AtSaveKnowledge) (salvar_categoria parts)
          (salvar_chave parts) (salvar_valor parts) (db w)).2)
  ∧ (startswith (py "/recuperar") um = true →
     (chat_response E um w).2 = w
     ∧ ∃ valor,
         get_knowledge (io E AtGetKnowledge) (recuperar_categoria parts)
           (recuperar_chave parts) (db w) = (Return valor, db w)
         ∧ (chat_response E um w).1
           = Return (match valor with
                     | Some (c :: v) => py "Valor recuperado: " ++ c :: v
                     | Some [] | None => py "Conhecimento não encontrado"
                     end)).
Proof.
  intros [[Hs Hn]|[Hr Hn]] parts.
  - destruct (chat_response_salvar E um w Hs Hn) as (b & d' & Hrun & ->).
    fold parts in Hrun. cbn [fst snd db sent]. split_and!; try done.
    + destruct (save_knowledge_cases (io E AtSaveKnowledge)
                  (salvar_categoria parts) (salvar_chave parts)
                  (salvar_valor parts) (db w)) as (b' & d'' & Hrun' & Hd & _).
      rewrite Hrun in Hrun'. injection Hrun' as -> ->.
      destruct Hd as [->|Hins]; [done|].
      by apply insert_or_replace_knowledge_inv in Hins as (? & _ & _ & ? & _).
    + intros _. by rewrite Hrun.
    + intros Hr. apply startswith_recuperar_not_salvar in Hr. congruence.
  - destruct (chat_response_recuperar E um w Hr Hn) as (valor & Hrun & ->).
    cbn [fst snd db sent]. split_and!; try done.
    + intros Hs. apply startswith_recuperar_not_salvar in Hr. congruence.
    + intros _. split; [done|]. by exists valor.
Qed.

Lemma C8_commands_bypass_completion_witness :
  sent (chat_response (quiet 1700000000 (py "ok"))
          (py "/salvar fatos:capital:Paris") fresh).2 = sent fresh.
Proof.
  apply (C8_commands_bypass_completion (quiet 1700000000 (py "ok"))
           (py "/salvar fatos:capital:Paris") fresh).
  left. split; [vm_compute; reflexivity|vm_compute; lia].
Defined.

(** ** The round trip through the command grammar *)

Lemma save_knowledge_no_faults c k v d :
  save_knowledge no_faults c k v d
  = match insert_or_replace_knowledge c k v d with
    | Return d' => (Return true, d')
    | Raise _ => (Return false, d)
    end.
Proof.
  unfold save_knowledge. store_steps. simpl.
  by destruct (insert_or_replace_knowledge c k v d).
Qed.

(** An [INSERT OR REPLACE] of strings that UTF-8 can encode goes through as
    long as a rowid is left. *)
Lemma insert_or_replace_knowledge_succeeds c k v d :
  bind_text c = Return tt → bind_text k = Return tt →
  bind_text v = Return tt →
  Z.max (knowledge_seq d) (largest (fact_id <$> knowledge d)) < max_rowid →
  ∃ d', insert_or_replace_knowledge c k v d = Return d'.
Proof.
  intros Hc Hk Hv Hid. unfold insert_or_replace_knowledge, next_rowid.
  unfold mbind, mret, outcome_bind, outcome_ret. rewrite Hc, Hk, Hv.
  apply Z.leb_gt in Hid. rewrite Hid. eauto.
Qed.

(** The command [/salvar category:key:value] written with a category, a key
    and a value that the parser gives back. *)
Lemma chat_salvar_saves E um c k v w :
  startswith (py "/salvar") um = true →
  (3 ≤ length (split colon um))%nat →
  salvar_categoria (split colon um) = c →
  salvar_chave (split colon um) = k →
  salvar_valor (split colon um) = v →
  bind_text c = Return tt → bind_text k = Return tt →
  bind_text v = Return tt →
  io E AtSaveKnowledge = no_faults →
  Z.max (knowledge_seq (db w)) (largest (fact_id <$> knowledge (db w)))
  < max_rowid →
  ∃ d',
    insert_or_replace_knowledge c k v (db w) = Return d'
    ∧ chat_response E um w
      = (Return (py "Conhecimento salvo: " ++ c ++ [colon] ++ k),
         {| db := d'; sent := sent w |}).
Proof.
  intros Hs Hn Hc Hk Hv Hbc Hbk Hbv Hio Hid.
  destruct (insert_or_replace_knowledge_succeeds c k v (db w))
    as (d' & Hins); try done.
  exists d'. split; [done|].
  destruct (chat_response_salvar E um w Hs Hn) as (b & d'' & Hrun & ->).
  cbn zeta in Hrun.
  rewrite Hc, Hk, Hv, Hio, save_knowledge_no_faults, Hins in Hrun.
  injection Hrun as <- <-. by rewrite Hc, Hk.
Qed.

(** C9.  With nothing failing in the store, the chat message
    ["/salvar fatos:capital:Paris"] is answered
    ["Conhecimento salvo: fatos:capital"] and the chat message
    ["/recuperar fatos:capital"] sent after it is answered
    ["Valor recuperado: Paris"].  The chat message
    [/salvar fatos:citacao:Diga "Olá":mundo], whose value contains a [':'],
    leaves one fact for [(fatos, citacao)], with the value
    [Diga "Olá":mundo]. *)
Theorem C9_salvar_then_recuperar (E1 E2 E3 : Env) (w : World) :
  io E1 AtSaveKnowledge = no_faults →
  io E2 AtGetKnowledge = no_faults →
  io E3 AtSaveKnowledge = no_faults →
  Z.max (knowledge_seq (db w)) (largest (fact_id <$> knowledge (db w)))
  < max_rowid →
  (∃ w1,
     chat_response E1 (py "/salvar fatos:capital:Paris") w
     = (Return (py "Conhecimento salvo: fatos:capital"), w1)
     ∧ chat_response E2 (py "/recuperar fatos:capital") w1
       = (Return (py "Valor recuperado: Paris"), w1))
  ∧ (∃ w2,
       chat_response E3
         (py "/salvar fatos:citacao:Diga " ++ dquote ++ py "Olá" ++ dquote
          ++ py ":mundo") w
       = (Return (py "Conhecimento salvo: fatos:citacao"), w2)
       ∧ value <$> facts_for (py "fatos") (py "citacao") (db w2)
         = [py "Diga " ++ dquote ++ py "Olá" ++ dquote ++ py ":mundo"]).
Proof.
  intros Hio1 Hio2 Hio3 Hid. split.
  - destruct (chat_salvar_saves E1 (py "/salvar fatos:capital:Paris")
                (py "fatos") (py "capital") (py "Paris") w)
      as (d1 & Hins & Hsave);
      try done; try (vm_compute; reflexivity); try (vm_compute; lia).
    eexists. split; [exact Hsave|].
    destruct (chat_response_recuperar E2 (py "/recuperar fatos:capital")
                {| db := d1; sent := sent w |})
      as (valor & Hget & ->); try (vm_compute; reflexivity).
    cbn zeta in Hget. cbn [db] in Hget.
    replace (recuperar_categoria (split colon (py "/recuperar fatos:capital")))
      with (py "fatos") in Hget by (vm_compute; reflexivity).
    replace (recuperar_chave (split colon (py "/recuperar fatos:capital")))
      with (py "capital") in Hget by (vm_compute; reflexivity).
    rewrite Hio2, get_knowledge_no_faults in Hget.
    destruct (insert_or_replace_knowledge_lookup _ _ _ _ _ Hins) as [_ Hsel].
    rewrite Hsel in Hget. by injection Hget as <-.
  - destruct (chat_salvar_saves E3
                (py "/salvar fatos:citacao:Diga " ++ dquote ++ py "Olá"
                 ++ dquote ++ py ":mundo")
                (py "fatos") (py "citacao")
                (py "Diga " ++ dquote ++ py "Olá" ++ dquote ++ py ":mundo") w)
      as (d2 & Hins & Hsave);
      try done; try (vm_compute; reflexivity); try (vm_compute; lia).
    eexists. split; [exact Hsave|]. cbn [db].
    by destruct (insert_or_replace_knowledge_lookup _ _ _ _ _ Hins).
Qed.

Lemma C9_salvar_then_recuperar_witness :
  ∃ w1,
    chat_response (quiet 1700000000 (py "ok"))
      (py "/salvar fatos:capital:Paris") fresh
    = (Return (py "Conhecimento salvo: fatos:capital"), w1)
    ∧ chat_response (quiet 1700000001 (py "ok"))
        (py "/recuperar fatos:capital") w1
      = (Return (py "Valor recuperado: Paris"), w1).
Proof.
  refine (proj1 (C9_salvar_then_recuperar (quiet 1700000000 (py "ok"))
                   (quiet 1700000001 (py "ok")) (quiet 1700000002 (py "ok"))
                   fresh _ _ _ _)).
  - reflexivity.
  - reflexivity.
  - reflexivity.
  - vm_compute. reflexivity.
Defined.

(** ** An empty value *)





(** ** Request threads *)

Module ThreadsFacts.
Import Threads.

Lemma step_transition i now σ :
  step i now σ = σ
  ∨ ∃ c p p' l' f',
      pool σ !! i = Some (c, p)
      ∧ transition now c σ p p' l' f'
      ∧ step i now σ
        = {| locked := l'; file := f'; pool := <[i := (c, p')]> (pool σ) |}.
Proof.
  unfold step. destruct (pool σ !! i) as [[c p]|] eqn:Hi; [|by left].
  destruct p as [| |txn r|r|r].
  - destruct (locked σ) eqn:Hl; [by left|right].
    eexists c, _, _, _, _. split_and!; [done| |done]. by constructor.
  - right. destruct (execute now c (file σ)) as [[txn r]|e] eqn:He.
    + eexists c, _, _, _, _. split_and!; [done| |done]. by constructor.
    + eexists c, _, _, _, _. split_and!; [done| |done]. by econstructor.
  - right. eexists c, _, _, _, _. split_and!; [done| |done]. constructor.
  - right. eexists c, _, _, _, _. split_and!; [done| |done]. constructor.
  - by left.
Qed.

Lemma lookup_insert_cases {A} (l : list A) i j x y :
  <[i := x]> l !! j = Some y → (j = i ∧ y = x) ∨ (j ≠ i ∧ l !! j = Some y).
Proof.
  intros [(-> & -> & _)|[? ?]]%list_lookup_insert_Some; [by left|by right].
Qed.

Lemma step_exclusive i now σ : exclusive σ → exclusive (step i now σ).
Proof.
  intros [Hone Hheld].
  destruct (step_transition i now σ)
    as [->|(c & p & p' & l' & f' & Hi & Ht & ->)]; [done|].
  split; simpl.
  - intros j1 j2 t1 t2 H1 H2 Hc1 Hc2.
    apply lookup_insert_cases in H1 as [[-> ->]|[Hne1 H1]];
      apply lookup_insert_cases in H2 as [[-> ->]|[Hne2 H2]];
      simpl in *; [done|..|by eapply Hone].
    + destruct (critical p) eqn:Hp.
      * symmetry. by eapply (Hone j2 i t2 (c, p)).
      * pose proof (Hheld j2 t2 H2 Hc2).
        destruct Ht; simpl in *; congruence.
    + destruct (critical p) eqn:Hp.
      * by eapply (Hone j1 i t1 (c, p)).
      * pose proof (Hheld j1 t1 H1 Hc1).
        destruct Ht; simpl in *; congruence.
  - intros j t Hj Hc.
    apply lookup_insert_cases in Hj as [[-> ->]|[Hne Hj]]; simpl in *.
    + destruct Ht; simpl in *; try done.
      all: by eapply (Hheld i (c, _)).
    + pose proof (Hheld j t Hj Hc) as Hl.
      destruct Ht; simpl in *; try done.
      all: destruct Hne; by eapply (Hone j i t (c, _)).
Qed.

Lemma step_coherent i now σ :
  exclusive σ → coherent σ → coherent (step i now σ).
Proof.
  intros [Hone Hheld] Hco.
  destruct (step_transition i now σ)
    as [->|(c & p & p' & l' & f' & Hi & Ht & ->)]; [done|].
  intros j cj txn r Hj. simpl in *.
  apply lookup_insert_cases in Hj as [[-> Heq]|[Hne Hj]].
  - injection Heq as <- <-.
    inv Ht. eauto.
  - assert (critical p = false) as Hp.
    { destruct (critical p) eqn:Hp; [|done]. destruct Hne.
      by eapply (Hone j i (cj, Executed txn r) (c, p)). }
    destruct Ht; simpl in *; try done. by eapply Hco.
Qed.

(** The conversations a pool has committed, when one thread moves on. *)
Lemma bind_insert {A B} (g : A → list B) (l : list A) i x y :
  l !! i = Some x →
  l ≫= g = (take i l ≫= g) ++ g x ++ (drop (S i) l ≫= g)
  ∧ <[i := y]> l ≫= g = (take i l ≫= g) ++ g y ++ (drop (S i) l ≫= g).
Proof.
  intros Hi. split.
  - rewrite <- (take_drop_middle l i x Hi) at 1.
    by rewrite bind_app, bind_cons.
  - rewrite insert_take_drop by by eapply lookup_lt_Some.
    by rewrite bind_app, bind_cons.
Qed.

Lemma committed_insert_same pool i t t' :
  pool !! i = Some t → committed t' = committed t →
  <[i := t']> pool ≫= committed = pool ≫= committed.
Proof.
  intros Hi Heq. destruct (bind_insert committed pool i t t' Hi) as [-> ->].
  by rewrite Heq.
Qed.

Lemma committed_insert_new pool i t t' x :
  pool !! i = Some t → committed t = [] → committed t' = [x] →
  <[i := t']> pool ≫= committed ≡ₚ (pool ≫= committed) ++ [x].
Proof.
  intros Hi Hold Hnew.
  destruct (bind_insert committed pool i t t' Hi) as [-> ->].
  rewrite Hold, Hnew. simpl.
  rewrite <- Permutation_middle. by rewrite Permutation_cons_append.
Qed.

Lemma execute_conversations now c d txn r :
  execute now c d = Return (Some txn, r) →
  r = Flag true
  ∧ ((∃ um ar id,
        c = SaveConversation um ar
        ∧ conversations txn
          = conversations d
            ++ [{| conv_id := id; user_message := um; ai_response := ar;
                   timestamp := now |}]
        ∧ ∀ x, x ∈ conversations d → conv_id x < id)
     ∨ (conversation_of c = [] ∧ conversations txn = conversations d)).
Proof.
  destruct c as [um ar|k0 k1 v|k0 k1|limit]; simpl;
    unfold mbind, mret, outcome_bind, outcome_ret.
  - destruct (insert_conversation now um ar d) as [d'|] eqn:Hins; [|done].
    intros [= <- <-]. split; [done|left].
    apply insert_conversation_inv in Hins as (id & Hc & _ & _ & _ & Hid).
    eauto 6.
  - destruct (insert_or_replace_knowledge k0 k1 v d) as [d'|] eqn:Hins;
      [|done].
    intros [= <- <-]. split; [done|right].
    by apply insert_or_replace_knowledge_inv in Hins as (? & _ & _ & ? & _).
  - by destruct (select_value k0 k1 d).
  - by destruct (select_history limit d).
Qed.

Lemma execute_read now c d r :
  execute now c d = Return (None, r) → ∀ p, committed (c, p) = [].
Proof.
  destruct c as [um ar|k0 k1 v|k0 k1|limit]; simpl;
    unfold mbind, mret, outcome_bind, outcome_ret; try done.
  by destruct (insert_conversation now um ar d).
Qed.

Lemma step_accounted d0 i now σ :
  coherent σ →
  accounted d0 σ ∧ NoDup (conv_id <$> conversations (file σ)) →
  accounted d0 (step i now σ)
  ∧ NoDup (conv_id <$> conversations (file (step i now σ))).
Proof.
  intros Hco [(news & Hfile & Hnews) Hids].
  destruct (step_transition i now σ)
    as [->|(c & p & p' & l' & f' & Hi & Ht & ->)]; [by split; [exists news|]|].
  unfold accounted. simpl.
  destruct Ht as [Hl|txn r He|e He|txn r|r].
  - split; [|done]. exists news. split; [done|].
    rewrite (committed_insert_same _ _ (c, Waiting)); [done..|].
    by destruct c.
  - split; [|done]. exists news. split; [done|].
    rewrite (committed_insert_same _ _ (c, Locked)); [done..|].
    by destruct c.
  - split; [|done]. exists news. split; [done|].
    rewrite (committed_insert_same _ _ (c, Locked)); [done..|].
    by destruct c.
  - destruct (Hco i c txn r Hi) as (now' & He).
    destruct txn as [txn|]; simpl.
    + apply execute_conversations in He
        as [-> [(um & ar & id & -> & Hc & Hid)|[Hnone Hc]]].
      * split.
        -- eexists (news ++ [_]). rewrite Hc, Hfile, app_assoc.
           split; [done|]. rewrite fmap_app, Hnews. simpl.
           by rewrite (committed_insert_new _ _
                         (SaveConversation um ar,
                          Executed (Some txn) (Flag true))
                         _ (um, ar)).
        -- rewrite Hc, fmap_app. simpl.
           apply list.NoDup_app. split_and!; [done| |apply NoDup_singleton].
           intros x (y & -> & Hy)%list_elem_of_fmap.
           rewrite list_elem_of_singleton. specialize (Hid y Hy). lia.
      * rewrite Hc. split; [|done]. exists news. split; [done|].
        rewrite (committed_insert_same _ _ (c, Executed (Some txn)
                                                  (Flag true))); [done..|].
        by destruct c.
    + split; [|done]. exists news. split; [done|].
      rewrite (committed_insert_same _ _ (c, Executed None r)); [done..|].
      by rewrite !(execute_read _ _ _ _ He).
  - split; [|done]. exists news. split; [done|].
    rewrite (committed_insert_same _ _ (c, Closing r)); [done..|].
    by destruct c, r as [[]| |].
Qed.

Lemma step_calls i now σ : fst <$> pool (step i now σ) = fst <$> pool σ.
Proof.
  destruct (step_transition i now σ)
    as [->|(c & p & p' & l' & f' & Hi & Ht & ->)]; [done|]. simpl.
  rewrite list_fmap_insert. apply list_insert_id.
  by rewrite list_lookup_fmap, Hi.
Qed.

Lemma step_invariant calls d0 i now σ :
  invariant calls d0 σ → invariant calls d0 (step i now σ).
Proof.
  intros (Hex & Hco & Hacc & Hids & Hcalls).
  destruct (step_accounted d0 i now σ Hco (conj Hacc Hids)) as [? ?].
  split_and!; [by apply step_exclusive|by apply step_coherent|done..|].
  by rewrite step_calls.
Qed.

Lemma start_invariant calls d0 :
  NoDup (conv_id <$> conversations d0) → invariant calls d0 (start d0 calls).
Proof.
  intros Hids. unfold start, waiting. split_and!; simpl.
  - split; simpl.
    + intros i j ti tj (c & -> & _)%list_lookup_fmap_Some. done.
    + intros i t (c & -> & _)%list_lookup_fmap_Some. done.
  - intros i c txn r (c' & [=] & _)%list_lookup_fmap_Some.
  - exists []. rewrite app_nil_r. split; [done|].
    induction calls as [|c calls IH]; [done|]. by destruct c.
  - done.
  - rewrite <- list_fmap_compose. apply list_fmap_id.
Qed.

Lemma run_invariant calls d0 schedule :
  NoDup (conv_id <$> conversations d0) →
  invariant calls d0 (run schedule (start d0 calls)).
Proof.
  intros Hids. unfold run.
  induction schedule as [|[i now] schedule IH] using rev_ind.
  - by apply start_invariant.
  - rewrite fold_left_app. simpl. by apply step_invariant.
Qed.

(** When every caller of [save_conversation] got [True], the committed
    conversations are those of the calls. *)
Lemma committed_saved pool :
  Forall saved pool →
  pool ≫= committed = (fst <$> pool) ≫= conversation_of.
Proof.
  induction 1 as [|[c p] pool Hs _ IH]; [done|].
  rewrite fmap_cons, !bind_cons, IH. f_equal.
  destruct c; simpl in *; [by rewrite Hs|done..].
Qed.

End ThreadsFacts.

(** C3.  Threads that each make one call of a store method, scheduled in
    any order: at every moment at most one thread is inside a store method,
    and [db_lock] is held while one is, so the calls run one after the
    other.  Once each of the [M] callers of [save_conversation] has got
    [True], the conversations table is the table of the start followed by
    [M] new rows, one for each call, and no two rows of the table share an
    id; a table that was empty at the start has exactly [M] rows. *)
Theorem C3_concurrent_saves
    (calls : list Threads.call) (d0 : Database) (schedule : list (nat * Z)) :
  NoDup (conv_id <$> conversations d0) →
  let σ := Threads.run schedule (Threads.start d0 calls) in
  let M := length (calls ≫= Threads.conversation_of) in
  Threads.exclusive σ
  ∧ (Forall Threads.saved (Threads.pool σ) →
     (∃ news,
        conversations (Threads.file σ) = conversations d0 ++ news
        ∧ length news = M
        ∧ (λ r, (user_message r, ai_response r)) <$> news
          ≡ₚ calls ≫= Threads.conversation_of)
     ∧ NoDup (conv_id <$> conversations (Threads.file σ))
     ∧ (conversations d0 = [] →
        length (conversations (Threads.file σ)) = M)).
Proof.
  intros Hids σ M.
  destruct (ThreadsFacts.run_invariant calls d0 schedule Hids)
    as (Hex & _ & (news & Hfile & Hnews) & Hnd & Hcalls).
  fold σ in Hex, Hfile, Hnews, Hnd, Hcalls.
  split; [done|]. intros Hsaved.
  rewrite (ThreadsFacts.committed_saved _ Hsaved), Hcalls in Hnews.
  assert (length news = M) as Hlen.
  { unfold M. by rewrite <- Hnews, length_fmap. }
  split_and!; [by exists news|done|].
  intros Hempty. by rewrite Hfile, Hempty.
Qed.

Lemma C3_concurrent_saves_witness :
  length
    (conversations
       (Threads.file
          (Threads.run
             [(0%nat, 1700000000); (1%nat, 1700000000); (0%nat, 1700000000);
              (1%nat, 1700000000); (0%nat, 1700000000); (0%nat, 1700000000);
              (1%nat, 1700000000); (1%nat, 1700000000); (1%nat, 1700000001);
              (1%nat, 1700000001)]
             (Threads.start (init_database None)
                [Threads.SaveConversation (py "oi") (py "A");
                 Threads.SaveConversation (py "tchau") (py "B")]))))
  = 2%nat.
Proof.
  refine (proj2 (proj2 (proj2
            (C3_concurrent_saves
               [Threads.SaveConversation (py "oi") (py "A");
                Threads.SaveConversation (py "tchau") (py "B")]
               (init_database None)
               [(0%nat, 1700000000); (1%nat, 1700000000); (0%nat, 1700000000);
                (1%nat, 1700000000); (0%nat, 1700000000); (0%nat, 1700000000);
                (1%nat, 1700000000); (1%nat, 1700000000); (1%nat, 1700000001);
                (1%nat, 1700000001)] _) _)) _).
  - vm_compute. constructor.
  - vm_compute. repeat constructor.
  - reflexivity.
Defined.

(* ===================================================================== *)
(** * Further properties of the store *)
(* ===================================================================== *)

(** X1.  When [save_conversation] returns [True], the conversations table
    is the table of before followed by one row, which holds the two texts
    and the timestamp of the insertion and whose id is above every id of
    the table; the knowledge table and its counter are as before. *)
Theorem save_conversation_appends
    (io : faults) (now : Z) (um ar : str) (d d' : Database) :
  save_conversation io now um ar d = (Return true, d') →
  ∃ id,
    conversations d'
    = conversations d
      ++ [{| conv_id := id; user_message := um; ai_response := ar;
             timestamp := now |}]
    ∧ (∀ r, r ∈ conversations d → conv_id r < id)
    ∧ conversations_seq d' = id
    ∧ knowledge d' = knowledge d
    ∧ knowledge_seq d' = knowledge_seq d.
Proof.
  intros Hrun.
  destruct (save_conversation_cases io now um ar d) as (b & d1 & H & _ & Hok).
  rewrite Hrun in H. injection H as <- <-.
  destruct (insert_conversation_inv _ _ _ _ _ (Hok eq_refl))
    as (id & ? & ? & ? & ? & ?).
  exists id. done.
Qed.

Lemma save_conversation_appends_witness :
  ∃ id,
    conversations (after_calls [CallSaveConversation no_faults 7 (py "oi")
                                  (py "A")])
    = conversations (init_database None)
      ++ [{| conv_id := id; user_message := py "oi"; ai_response := py "A";
             timestamp := 7 |}]
    ∧ (∀ r, r ∈ conversations (init_database None) → conv_id r < id)
    ∧ conversations_seq
        (after_calls [CallSaveConversation no_faults 7 (py "oi") (py "A")])
      = id
    ∧ knowledge
        (after_calls [CallSaveConversation no_faults 7 (py "oi") (py "A")])
      = knowledge (init_database None)
    ∧ knowledge_seq
        (after_calls [CallSaveConversation no_faults 7 (py "oi") (py "A")])
      = knowledge_seq (init_database None).
Proof.
  apply (save_conversation_appends no_faults 7 (py "oi") (py "A")
           (init_database None)).
  vm_compute. reflexivity.
Defined.

(** ** Conversations are only ever appended *)

Lemma after_call_conversations d call :
  conversations (after_call d call) = conversations d
  ∨ ∃ r, conversations (after_call d call) = conversations d ++ [r]
         ∧ ∀ x, x ∈ conversations d → conv_id x < conv_id r.
Proof.
  destruct call as [io now um ar|io c k v|io c k|io limit]; simpl.
  - destruct (save_conversation_cases io now um ar d)
      as (b & d' & -> & [->|Hins] & _); simpl; [by left|right].
    apply insert_conversation_inv in Hins as (id & Hc & _ & _ & _ & Hid).
    eexists. split; [exact Hc|done].
  - left. destruct (save_knowledge_cases io c k v d)
      as (b & d' & -> & [->|Hins] & _); simpl; [done|].
    by apply insert_or_replace_knowledge_inv in Hins as (? & _ & _ & ? & _).
  - left. by destruct (get_knowledge_cases io c k d) as (r & -> & _).
  - left.
    by destruct (get_conversation_history_cases io limit d) as (r & -> & _).
Qed.

Lemma fold_after_call_prefix cs d :
  conversations d `prefix_of` conversations (fold_left after_call cs d).
Proof.
  revert d. induction cs as [|call cs IH]; intros d; simpl; [done|].
  etrans; [|apply IH].
  destruct (after_call_conversations d call) as [->|(r & -> & _)]; [done|].
  by apply prefix_app_r.
Qed.

(** X2.  No store method changes or removes a row of the conversations
    table: whatever calls are made, with whatever faults, the table of
    before is the beginning of the table of after. *)
Theorem conversations_append_only (cs1 cs2 : list StoreCall) :
  conversations (after_calls cs1)
  `prefix_of` conversations (after_calls (cs1 ++ cs2)).
Proof.
  unfold after_calls. rewrite fold_left_app. apply fold_after_call_prefix.
Qed.

(** ** Rowids *)

Lemma largest_nonneg (ids : list Z) : 0 ≤ largest ids.
Proof. unfold largest. induction ids; simpl; lia. Qed.

Lemma next_rowid_above seq ids id :
  next_rowid seq ids = Return id → seq < id ∧ 0 < id.
Proof.
  unfold next_rowid. destruct (max_rowid <=? _); [done|].
  intros [= <-]. pose proof (largest_nonneg ids). lia.
Qed.

Lemma insert_conversation_rowid now um ar d d' :
  insert_conversation now um ar d = Return d' →
  conversations_seq d < conversations_seq d' ∧ 0 < conversations_seq d'.
Proof.
  unfold insert_conversation.
  unfold mbind, mret, outcome_bind, outcome_ret.
  destruct (bind_text um) as [[]|?]; [|done].
  destruct (bind_text ar) as [[]|?]; [|done].
  destruct (next_rowid _ _) as [id|] eqn:Hid; [|done].
  intros [= <-]. simpl. by eapply next_rowid_above.
Qed.

Lemma insert_or_replace_knowledge_rowid c k v d d' :
  insert_or_replace_knowledge c k v d = Return d' →
  knowledge_seq d < knowledge_seq d' ∧ 0 < knowledge_seq d'.
Proof.
  unfold insert_or_replace_knowledge.
  unfold mbind, mret, outcome_bind, outcome_ret.
  destruct (bind_text c) as [[]|?]; [|done].
  destruct (bind_text k) as [[]|?]; [|done].
  destruct (bind_text v) as [[]|?]; [|done].
  destruct (next_rowid _ _) as [id|] eqn:Hid; [|done].
  intros [= <-]. simpl. by eapply next_rowid_above.
Qed.

Lemma rowids_ok_snoc ids seq id :
  rowids_ok ids seq → seq < id → 0 < id → (∀ x, x ∈ ids → x < id) →
  rowids_ok (ids ++ [id]) id.
Proof.
  intros [Hs Hb] Hseq Hpos Hlt. split.
  - apply StronglySorted_app. split_and!; [|done|repeat constructor].
    intros x1 x2 H1 ->%list_elem_of_singleton. by apply Hlt.
  - apply Forall_app. split.
    + eapply Forall_impl; [exact Hb|]. simpl. lia.
    + apply Forall_singleton. lia.
Qed.

Lemma rowids_ok_sublist ids ids' seq :
  ids' `sublist_of` ids → rowids_ok ids seq → rowids_ok ids' seq.
Proof.
  intros Hsub [Hs Hb]. split.
  - by eapply StronglySorted_sublist.
  - eapply Forall_forall. intros x Hx.
    eapply (proj1 (Forall_forall _ _) Hb). by eapply elem_of_sublist.
Qed.

Lemma after_call_rowids d call :
  rowids_ok (conv_id <$> conversations d) (conversations_seq d)
  ∧ rowids_ok (fact_id <$> knowledge d) (knowledge_seq d) →
  rowids_ok (conv_id <$> conversations (after_call d call))
    (conversations_seq (after_call d call))
  ∧ rowids_ok (fact_id <$> knowledge (after_call d call))
      (knowledge_seq (after_call d call)).
Proof.
  intros [Hc Hk].
  destruct call as [io now um ar|io c k v|io c k|io limit]; simpl.
  - destruct (save_conversation_cases io now um ar d)
      as (b & d' & -> & [->|Hins] & _); simpl; [done|].
    destruct (insert_conversation_rowid _ _ _ _ _ Hins) as [Hseq Hpos].
    apply insert_conversation_inv in Hins
      as (id & Hrows & Hid & Hkn & Hks & Hlt).
    rewrite Hkn, Hks. split; [|done].
    rewrite Hrows, fmap_app, Hid in *. simpl.
    apply (rowids_ok_snoc _ (conversations_seq d)); try done.
    intros x (r & -> & Hr)%list_elem_of_fmap. by apply Hlt.
  - destruct (save_knowledge_cases io c k v d)
      as (b & d' & -> & [->|Hins] & _); simpl; [done|].
    destruct (insert_or_replace_knowledge_rowid _ _ _ _ _ Hins)
      as [Hseq Hpos].
    apply insert_or_replace_knowledge_inv in Hins
      as (id & Hrows & Hid & Hcv & Hcs & _ & _ & Hlt).
    rewrite Hcv, Hcs. split; [done|].
    rewrite Hrows, fmap_app, Hid in *. simpl.
    apply (rowids_ok_snoc _ (knowledge_seq d)); try done.
    + eapply rowids_ok_sublist; [|exact Hk].
      apply fmap_sublist, delete_conflicts_sublist.
    + intros x (f & -> & Hf)%list_elem_of_fmap.
      apply Hlt. by apply elem_of_delete_conflicts in Hf as [? _].
  - by destruct (get_knowledge_cases io c k d) as (r & -> & _).
  - by destruct (get_conversation_history_cases io limit d) as (r & -> & _).
Qed.

(** X3.  In every database reached from the one [_init_database] creates,
    the ids of each table grow along the table, are positive and are not
    above the [AUTOINCREMENT] counter of the table: an id is never used
    twice, also after the row that had it was replaced. *)
Theorem rowids_increase (cs : list StoreCall) :
  rowids_ok (conv_id <$> conversations (after_calls cs))
    (conversations_seq (after_calls cs))
  ∧ rowids_ok (fact_id <$> knowledge (after_calls cs))
      (knowledge_seq (after_calls cs)).
Proof.
  induction cs as [|call cs IH] using rev_ind.
  - split; (split; [constructor|constructor]).
  - rewrite after_calls_snoc. by apply after_call_rowids.
Qed.

(** ** What a save leaves alone *)

Lemma get_knowledge_congr io c k d d' :
  select_value c k d = select_value c k d' →
  (get_knowledge io c k d).1 = (get_knowledge io c k d').1.
Proof.
  intros Heq. unfold get_knowledge. store_steps. rewrite Heq.
  destruct (io Connect); simpl; [|done].
  destruct (io Execute); simpl; [|done].
  destruct (select_value c k d'); simpl; [|done].
  destruct (io Fetch); simpl; [|done].
  by destruct (io Close).
Qed.

Lemma get_conversation_history_congr io limit d d' :
  conversations d = conversations d' →
  (get_conversation_history io limit d).1
  = (get_conversation_history io limit d').1.
Proof.
  intros Heq. unfold get_conversation_history. store_steps.
  unfold select_history, select_history_rows. rewrite Heq.
  destruct (io Connect); simpl; [|done].
  destruct (io Execute); simpl; [|done].
  destruct (_ ≫= _); simpl; [|done].
  destruct (io Fetch); simpl; [|done].
  by destruct (io Close).
Qed.

(** X4.  [save_knowledge(category, key, value)] only touches the fact of
    [(category, key)]: whatever it returns, the lookup of any other pair
    and the conversation history give what they gave before. *)
Theorem save_knowledge_frame
    (io io' : faults) (c k v c' k' : str) (limit : Z) (d d' : Database)
    (b : bool) :
  (c', k') ≠ (c, k) →
  save_knowledge io c k v d = (Return b, d') →
  (get_knowledge io' c' k' d').1 = (get_knowledge io' c' k' d).1
  ∧ (get_conversation_history io' limit d').1
    = (get_conversation_history io' limit d).1.
Proof.
  intros Hne Hrun.
  destruct (save_knowledge_cases io c k v d) as (b1 & d1 & H & Hd & _).
  rewrite Hrun in H. injection H as <- <-.
  destruct Hd as [->|Hins]; [done|].
  apply insert_or_replace_knowledge_inv in Hins
    as (id & Hk & _ & Hc & _).
  split.
  - apply get_knowledge_congr. unfold select_value. rewrite Hk.
    rewrite first_value_app, first_value_delete_other by done.
    destruct (first_value c' k' (knowledge d)); [done|]. simpl.
    destruct (same_key c' k' _) eqn:Hsame; [|done].
    apply same_key_spec in Hsame as [? ?]. simpl in *. congruence.
  - by apply get_conversation_history_congr.
Qed.

Lemma save_knowledge_frame_witness :
  (get_knowledge no_faults (py "fatos") (py "moeda")
     (after_calls
        [CallSaveKnowledge no_faults (py "fatos") (py "moeda") (py "euro");
         CallSaveKnowledge no_faults (py "fatos") (py "capital")
           (py "Paris")])).1
  = (get_knowledge no_faults (py "fatos") (py "moeda")
       (after_calls
          [CallSaveKnowledge no_faults (py "fatos") (py "moeda")
             (py "euro")])).1.
Proof.
  refine (proj1 (save_knowledge_frame no_faults no_faults
                   (py "fatos") (py "capital") (py "Paris")
                   (py "fatos") (py "moeda") 2
                   (after_calls
                      [CallSaveKnowledge no_faults (py "fatos") (py "moeda")
                         (py "euro")]) _ true _ _)).
  - vm_compute. discriminate.
  - vm_compute. reflexivity.
Defined.

(** ** Writes that report a failure *)

(** X5.  When [save_conversation] returns [False] the database is as it
    was, with one exception: if it is [conn.close()] that raised, the row
    was committed before, and it is in the table although the caller was
    told [False]. *)
Theorem save_conversation_false
    (io : faults) (now : Z) (um ar : str) (d d' : Database) :
  save_conversation io now um ar d = (Return false, d') →
  d' = d
  ∨ ((∃ e, io Close = Raise e)
     ∧ insert_conversation now um ar d = Return d').
Proof.
  unfold save_conversation. store_steps.
  destruct (io Connect); simpl; [|intros [= <-]; by left].
  destruct (io Execute); simpl; [|intros [= <-]; by left].
  destruct (insert_conversation now um ar d) as [txn|];
    simpl; [|intros [= <-]; by left].
  destruct (io Commit); simpl; [|intros [= <-]; by left].
  destruct (io Close) as [|e]; simpl; [done|].
  intros [= <-]. right. eauto.
Qed.

Lemma save_conversation_false_witness :
  after_calls
    [CallSaveConversation (fault_at Close (py "unable to close")) 7
       (py "oi") (py "A")]
  = init_database None
  ∨ ((∃ e, fault_at Close (py "unable to close") Close = Raise e)
     ∧ insert_conversation 7 (py "oi") (py "A") (init_database None)
       = Return
           (after_calls
              [CallSaveConversation (fault_at Close (py "unable to close")) 7
                 (py "oi") (py "A")])).
Proof.
  apply (save_conversation_false (fault_at Close (py "unable to close")) 7
           (py "oi") (py "A")).
  vm_compute. reflexivity.
Defined.

(** The same for [save_knowledge]. *)
Lemma save_knowledge_false io c k v d d' :
  save_knowledge io c k v d = (Return false, d') →
  d' = d
  ∨ ((∃ e, io Close = Raise e)
     ∧ insert_or_replace_knowledge c k v d = Return d').
Proof.
  unfold save_knowledge. store_steps.
  destruct (io Connect); simpl; [|intros [= <-]; by left].
  destruct (io Execute); simpl; [|intros [= <-]; by left].
  destruct (insert_or_replace_knowledge c k v d) as [txn|];
    simpl; [|intros [= <-]; by left].
  destruct (io Commit); simpl; [|intros [= <-]; by left].
  destruct (io Close) as [|e]; simpl; [done|].
  intros [= <-]. right. eauto.
Qed.

(** ** Strings that SQLite cannot store *)

Lemma bind_text_surrogate s :
  existsb is_surrogate s = true → ∃ e, bind_text s = Raise e.
Proof. intros H. unfold bind_text. rewrite H. eauto. Qed.

(** X6.  A lone surrogate in the category, the key or the value makes
    [save_knowledge] return [False] and leave the database as it was; in
    the category or the key it makes [get_knowledge] return [None]. *)
Theorem surrogates_are_refused
    (io : faults) (c k v : str) (d : Database) :
  existsb is_surrogate (c ++ k ++ v) = true →
  save_knowledge io c k v d = (Return false, d)
  ∧ (existsb is_surrogate (c ++ k) = true →
     get_knowledge io c k d = (Return None, d)).
Proof.
  intros Hs. split.
  - assert (∃ e, insert_or_replace_knowledge c k v d = Raise e) as [e He].
    { unfold insert_or_replace_knowledge.
      unfold mbind, mret, outcome_bind, outcome_ret.
      rewrite !existsb_app, !orb_true_iff in Hs.
      destruct Hs as [Hc|[Hk|Hv]].
      - apply bind_text_surrogate in Hc as [e ->]. eauto.
      - apply bind_text_surrogate in Hk as [e ->].
        destruct (bind_text c) as [[]|]; eauto.
      - apply bind_text_surrogate in Hv as [e ->].
        destruct (bind_text c) as [[]|]; [|eauto].
        destruct (bind_text k) as [[]|]; eauto. }
    unfold save_knowledge. store_steps. rewrite He.
    destruct (io Connect); simpl; [|done].
    by destruct (io Execute).
  - intros Hck.
    assert (∃ e, select_value c k d = Raise e) as [e He].
    { unfold select_value. unfold mbind, mret, outcome_bind, outcome_ret.
      rewrite existsb_app, orb_true_iff in Hck.
      destruct Hck as [Hc|Hk].
      - apply bind_text_surrogate in Hc as [e ->]. eauto.
      - apply bind_text_surrogate in Hk as [e ->].
        destruct (bind_text c) as [[]|]; eauto. }
    unfold get_knowledge. store_steps. rewrite He.
    destruct (io Connect); simpl; [|done].
    by destruct (io Execute).
Qed.

Lemma surrogates_are_refused_witness :
  save_knowledge no_faults (py "fatos") (py "capital") [55296%N]
    (init_database None)
  = (Return false, init_database None).
Proof.
  refine (proj1 (surrogates_are_refused no_faults (py "fatos") (py "capital")
                   [55296%N] (init_database None) _)).
  vm_compute. reflexivity.
Defined.

(** ** The limit of the history *)

Lemma order_by_length table :
  length (order_by_timestamp_desc table) = length table.
Proof. by rewrite order_by_perm. Qed.

(** X7.  Without faults and for a limit that fits 64 bits, the history has
    [min(limit, number of rows)] entries when the limit is not negative,
    and an entry for every row of the table when the limit is negative
    ([LIMIT -1] is no limit); the entries are those of rows of the table,
    each row taken at most once. *)
Theorem history_limit (limit : Z) (d : Database) :
  - max_rowid - 1 ≤ limit ≤ max_rowid →
  ∃ rows,
    get_conversation_history no_faults limit d = (Return (pairs rows), d)
    ∧ rows ⊆+ conversations d
    ∧ length rows
      = (if limit <? 0 then length (conversations d)
         else Nat.min (Z.to_nat limit) (length (conversations d)))
    ∧ (limit < 0 → rows ≡ₚ conversations d).
Proof.
  intros Hl. exists (select_history_rows limit d). split_and!.
  - unfold get_conversation_history. store_steps. simpl.
    unfold select_history, mbind, mret, outcome_bind, outcome_ret, bind_int.
    destruct (limit <? - max_rowid - 1) eqn:H1; [apply Z.ltb_lt in H1; lia|].
    destruct (max_rowid <? limit) eqn:H2; [apply Z.ltb_lt in H2; lia|].
    done.
  - unfold select_history_rows. rewrite <- (order_by_perm (conversations d)) at 2.
    apply sublist_submseteq, limit_rows_sublist.
  - unfold select_history_rows, limit_rows.
    destruct (limit <? 0); [apply order_by_length|].
    by rewrite length_take, order_by_length.
  - intros Hneg. unfold select_history_rows, limit_rows.
    apply Z.ltb_lt in Hneg as ->. apply order_by_perm.
Qed.

Lemma history_limit_witness :
  ∃ rows,
    get_conversation_history no_faults (-1)
      (after_calls [CallSaveConversation no_faults 7 (py "oi") (py "A");
                    CallSaveConversation no_faults 9 (py "e?") (py "B")])
    = (Return (pairs rows),
       after_calls [CallSaveConversation no_faults 7 (py "oi") (py "A");
                    CallSaveConversation no_faults 9 (py "e?") (py "B")])
    ∧ rows ⊆+ conversations
                (after_calls
                   [CallSaveConversation no_faults 7 (py "oi") (py "A");
                    CallSaveConversation no_faults 9 (py "e?") (py "B")])
    ∧ length rows = 2%nat
    ∧ (-1 < 0 →
       rows ≡ₚ conversations
                 (after_calls
                    [CallSaveConversation no_faults 7 (py "oi") (py "A");
                     CallSaveConversation no_faults 9 (py "e?") (py "B")])).
Proof.
  apply (history_limit (-1)
           (after_calls [CallSaveConversation no_faults 7 (py "oi") (py "A");
                         CallSaveConversation no_faults 9 (py "e?") (py "B")])).
  vm_compute. split; discriminate.
Defined.

(** X8.  A limit that does not fit 64 bits cannot be bound to the
    statement: [get_conversation_history] returns the empty list, whatever
    the table holds. *)
Theorem history_limit_overflow (io : faults) (limit : Z) (d : Database) :
  limit < - max_rowid - 1 ∨ max_rowid < limit →
  get_conversation_history io limit d = (Return [], d).
Proof.
  intros Hl. unfold get_conversation_history. store_steps.
  assert (∃ e, select_history limit d = Raise e) as [e He].
  { unfold select_history, mbind, mret, outcome_bind, outcome_ret, bind_int.
    destruct Hl as [Hl|Hl].
    - apply Z.ltb_lt in Hl as ->. eauto.
    - apply Z.ltb_lt in Hl as ->. rewrite orb_true_r. eauto. }
  rewrite He.
  destruct (io Connect); simpl; [|done].
  by destruct (io Execute).
Qed.

Lemma history_limit_overflow_witness :
  get_conversation_history no_faults 9223372036854775808
    (after_calls [CallSaveConversation no_faults 7 (py "oi") (py "A")])
  = (Return [],
     after_calls [CallSaveConversation no_faults 7 (py "oi") (py "A")]).
Proof.
  apply history_limit_overflow. right. vm_compute. reflexivity.
Defined.

(* ===================================================================== *)
(** * Further properties of the command grammar *)
(* ===================================================================== *)

(** ** [split] and [join] *)

Lemma split_nonempty sep s : split sep s ≠ [].
Proof.
  destruct s as [|c s]; simpl; [done|].
  destruct (c =? sep)%N; [done|]. by destruct (split sep s).
Qed.

Lemma join_cons sep part parts :
  parts ≠ [] → join sep (part :: parts) = part ++ sep ++ join sep parts.
Proof. by destruct parts. Qed.

Lemma join_split sep s : join [sep] (split sep s) = s.
Proof.
  induction s as [|c s IH]; simpl; [done|].
  destruct (c =? sep)%N eqn:Hc.
  - apply N.eqb_eq in Hc as ->.
    rewrite join_cons by apply split_nonempty. by rewrite IH.
  - pose proof (split_nonempty sep s) as Hne.
    destruct (split sep s) as [|part parts]; [done|].
    destruct parts as [|part' parts].
    + simpl in *. by rewrite IH.
    + rewrite join_cons in * by done. by rewrite <- IH.
Qed.

Lemma split_no_sep sep s : Forall (λ part, sep ∉ part) (split sep s).
Proof.
  induction s as [|c s IH]; simpl.
  - constructor; [|constructor]. by intros ?%elem_of_nil.
  - destruct (c =? sep)%N eqn:Hc.
    + constructor; [|done]. by intros ?%elem_of_nil.
    + apply N.eqb_neq in Hc.
      destruct (split sep s) as [|part parts]; inv IH.
      * constructor; [|constructor].
        intros [->|?%elem_of_nil]%elem_of_cons; done.
      * constructor; [|done].
        intros [->|?]%elem_of_cons; done.
Qed.

Lemma split_length sep s : length (split sep s) = S (count_char sep s).
Proof.
  unfold count_char. induction s as [|c s IH]; simpl; [done|].
  rewrite (N.eqb_sym sep c).
  destruct (c =? sep)%N; simpl; [by rewrite IH|].
  pose proof (split_nonempty sep s).
  destruct (split sep s); [done|]. by rewrite <- IH.
Qed.

(** X9.  Splitting a string at [':'] and joining the parts with [':'] gives
    the string back; no part holds a [':'], and there is one part more than
    there are [':'] in the string (so never no part at all). *)
Theorem split_join_roundtrip (s : str) :
  join [colon] (split colon s) = s
  ∧ Forall (λ part, colon ∉ part) (split colon s)
  ∧ length (split colon s) = S (count_char colon s).
Proof.
  split_and!; [apply join_split|apply split_no_sep|apply split_length].
Qed.

Lemma split_without sep s : sep ∉ s → split sep s = [s].
Proof.
  induction s as [|c s IH]; intros Hs; simpl; [done|].
  destruct (c =? sep)%N eqn:Hc.
  - apply N.eqb_eq in Hc as ->. destruct Hs. by left.
  - rewrite IH; [done|]. intros ?. apply Hs. by right.
Qed.

Lemma split_app_sep sep a b :
  sep ∉ a → split sep (a ++ sep :: b) = a :: split sep b.
Proof.
  induction a as [|c a IH]; intros Ha; simpl.
  - by rewrite N.eqb_refl.
  - destruct (c =? sep)%N eqn:Hc.
    + apply N.eqb_eq in Hc as ->. destruct Ha. by left.
    + rewrite IH; [done|]. intros ?. apply Ha. by right.
Qed.

(** ** [strip] *)

Lemma lstrip_spec s :
  ∃ l, s = l ++ lstrip s
       ∧ Forall (λ c, isspace c = true) l
       ∧ ∀ c t, lstrip s = c :: t → isspace c = false.
Proof.
  induction s as [|c s (l & Hs & Hl & Hhd)]; simpl.
  - exists []. split_and!; [done|constructor|done].
  - destruct (isspace c) eqn:Hc.
    + exists (c :: l). split_and!; [by rewrite Hs at 1|by constructor|done].
    + exists []. split_and!; [done|constructor|].
      by intros c' t [= <- _].
Qed.

Lemma lstrip_id s :
  (∀ c t, s = c :: t → isspace c = false) → lstrip s = s.
Proof.
  destruct s as [|c s]; [done|]. intros H. simpl.
  by rewrite (H c s eq_refl).
Qed.

(** X10.  [strip] removes white space at both ends and nothing else: the
    string is white space, then the stripped string, then white space; the
    stripped string neither begins nor ends with white space; stripping it
    again changes nothing. *)
Theorem strip_spec (s : str) :
  (∃ l r, s = l ++ strip s ++ r
          ∧ Forall (λ c, isspace c = true) l
          ∧ Forall (λ c, isspace c = true) r)
  ∧ (∀ c t, strip s = c :: t → isspace c = false)
  ∧ (∀ t c, strip s = t ++ [c] → isspace c = false)
  ∧ strip (strip s) = strip s.
Proof.
  unfold strip, rstrip.
  destruct (lstrip_spec s) as (l & Hs & Hl & Hhd).
  destruct (lstrip_spec (rev (lstrip s))) as (r & Hr & Hrs & Hlast).
  set (t := lstrip s) in *. set (u := lstrip (rev t)) in *.
  assert (t = rev u ++ rev r) as Ht.
  { rewrite <- rev_app_distr, <- Hr. by rewrite rev_involutive. }
  assert (∀ c x, rev u = c :: x → isspace c = false) as Hfirst.
  { intros c x Hu. destruct (rev u) as [|c' x'] eqn:E; [done|].
    injection Hu as -> ->. apply (Hhd c (x ++ rev r)).
    by rewrite Ht. }
  assert (∀ x c, rev u = x ++ [c] → isspace c = false) as Hend.
  { intros x c Hu. apply (Hlast c (rev x)).
    rewrite <- (rev_involutive u), Hu, rev_app_distr. done. }
  split_and!.
  - exists l, (rev r). split_and!.
    + by rewrite <- Ht.
    + done.
    + apply Forall_forall. intros c Hc.
      apply (proj1 (Forall_forall _ _) Hrs).
      apply list_elem_of_In. apply in_rev. by apply list_elem_of_In.
  - done.
  - done.
  - rewrite (lstrip_id (rev u)) by done.
    rewrite rev_involutive. fold u.
    rewrite (lstrip_id u); [done|].
    intros c x Hu. apply (Hend (rev x) c).
    rewrite Hu. simpl. done.
Qed.

(** ** [replace] *)

Lemma replace_from_skip old new l s :
  replace_from old new (length l) (l ++ s) = replace_from old new O s.
Proof. induction l as [|c l IH]; simpl; [done|]. apply IH. Qed.

Lemma replace_prefix old new s :
  old ≠ [] → replace old new (old ++ s) = new ++ replace old new s.
Proof.
  intros Hold. unfold replace. destruct old as [|c old]; [done|].
  cbn [app replace_from].
  change (c :: old ++ s) with ((c :: old) ++ s).
  rewrite startswith_app. cbn [length Nat.pred].
  by rewrite replace_from_skip.
Qed.

Lemma replace_absent old new s :
  contains old s = false → replace old new s = s.
Proof.
  unfold replace. induction s as [|c s IH]; [done|].
  cbn [contains replace_from]. intros [Hhd Htl]%orb_false_iff.
  rewrite Hhd. f_equal. by apply IH.
Qed.

(** ** The [/salvar] and [/recuperar] commands in general *)

Lemma not_elem_of_existsb (x : N) (s : str) :
  existsb (N.eqb x) s = false → x ∉ s.
Proof.
  induction s as [|c s IH]; simpl; [by intros _ ?%elem_of_nil|].
  intros [Hc Hs]%orb_false_iff [->|?]%elem_of_cons; [|by apply IH].
  by rewrite N.eqb_refl in Hc.
Qed.

Lemma not_elem_of_app_2 (x : N) (a b : str) : x ∉ a → x ∉ b → x ∉ a ++ b.
Proof. intros Ha Hb [?|?]%elem_of_app; done. Qed.

(** X11.  How [chat] reads [/salvar<category>:<key>:<value>] when neither
    the category nor the key holds a [':']: the message is split into at
    least three parts; the category is what is left of [<category>] once the
    occurrences of ["/salvar"] are removed and the white space at both ends
    is stripped; the key is [<key>] stripped; the value is all of [<value>],
    with the [':'] it holds, stripped. *)
Theorem salvar_parse (c k v : str) :
  colon ∉ c → colon ∉ k →
  let um := py "/salvar" ++ c ++ [colon] ++ k ++ [colon] ++ v in
  startswith (py "/salvar") um = true
  ∧ (3 ≤ length (split colon um))%nat
  ∧ salvar_categoria (split colon um) = strip (replace (py "/salvar") [] c)
  ∧ salvar_chave (split colon um) = strip k
  ∧ salvar_valor (split colon um) = strip v.
Proof.
  intros Hc Hk um.
  assert (split colon um = (py "/salvar" ++ c) :: k :: split colon v) as Hsplit.
  { unfold um. rewrite app_assoc.
    change ([colon] ++ k ++ [colon] ++ v) with (colon :: k ++ colon :: v).
    rewrite split_app_sep.
    - by rewrite split_app_sep.
    - apply not_elem_of_app_2; [|done].
      apply not_elem_of_existsb. vm_compute. reflexivity. }
  split_and!.
  - apply startswith_app.
  - rewrite Hsplit. simpl. pose proof (split_nonempty colon v).
    destruct (split colon v); [done|]. simpl. lia.
  - unfold salvar_categoria. rewrite Hsplit. cbn [nth].
    rewrite replace_prefix; [done|]. vm_compute. discriminate.
  - unfold salvar_chave. by rewrite Hsplit.
  - unfold salvar_valor. rewrite Hsplit.
    change (drop 2 ((py "/salvar" ++ c) :: k :: split colon v))
      with (split colon v).
    by rewrite join_split.
Qed.

Lemma salvar_parse_witness :
  salvar_valor
    (split colon
       (py "/salvar" ++ py " fatos" ++ [colon] ++ py "hora" ++ [colon]
        ++ py " 12:30 "))
  = strip (py " 12:30 ").
Proof.
  refine (proj2 (proj2 (proj2 (proj2
            (salvar_parse (py " fatos") (py "hora") (py " 12:30 ") _ _))))).
  - apply not_elem_of_existsb. vm_compute. reflexivity.
  - apply not_elem_of_existsb. vm_compute. reflexivity.
Defined.

Lemma recuperar_parse (c k : str) :
  colon ∉ c → colon ∉ k →
  let um := py "/recuperar" ++ c ++ [colon] ++ k in
  startswith (py "/recuperar") um = true
  ∧ length (split colon um) = 2%nat
  ∧ recuperar_categoria (split colon um)
    = strip (replace (py "/recuperar") [] c)
  ∧ recuperar_chave (split colon um) = strip k.
Proof.
  intros Hc Hk um.
  assert (split colon um = [py "/recuperar" ++ c; k]) as Hsplit.
  { unfold um. rewrite app_assoc.
    change ([colon] ++ k) with (colon :: k).
    rewrite split_app_sep.
    - by rewrite split_without.
    - apply not_elem_of_app_2; [|done].
      apply not_elem_of_existsb. vm_compute. reflexivity. }
  split_and!.
  - apply startswith_app.
  - by rewrite Hsplit.
  - unfold recuperar_categoria. rewrite Hsplit. cbn [nth].
    rewrite replace_prefix; [done|]. vm_compute. discriminate.
  - unfold recuperar_chave. by rewrite Hsplit.
Qed.

Lemma Return_pair_inj {A S} (a b : A) (s t : S) :
  (Return a, s) = (Return b, t) → a = b ∧ s = t.
Proof. by intros [= -> ->]. Qed.

Lemma saved_is_not_error (s : str) :
  py "Erro ao salvar conhecimento" ≠ py "Conhecimento salvo: " ++ s.
Proof. intros H. vm_compute in H. discriminate. Qed.

(** X12.  The round trip through the two commands.  For a category and a
    key without [':'], the category holding neither ["/salvar"] nor
    ["/recuperar"]: once [/salvar<category>:<key>:<value>] has been answered
    ["Conhecimento salvo: ..."], a [/recuperar<category>:<key>] whose lookup
    does not fail is answered ["Valor recuperado: "] followed by the
    stripped value, or ["Conhecimento não encontrado"] when the stripped
    value is empty; and it changes nothing. *)
Theorem salvar_recuperar_roundtrip
    (E1 E2 : Env) (c k v : str) (w w1 : World) :
  colon ∉ c → colon ∉ k →
  contains (py "/salvar") c = false →
  contains (py "/recuperar") c = false →
  chat_response E1 (py "/salvar" ++ c ++ [colon] ++ k ++ [colon] ++ v) w
  = (Return (py "Conhecimento salvo: " ++ strip c ++ [colon] ++ strip k), w1) →
  io E2 AtGetKnowledge = no_faults →
  chat_response E2 (py "/recuperar" ++ c ++ [colon] ++ k) w1
  = (Return (if truthy (strip v)
             then py "Valor recuperado: " ++ strip v
             else py "Conhecimento não encontrado"), w1).
Proof.
  intros Hc Hk Hs Hr Hsave Hio.
  destruct (salvar_parse c k v Hc Hk) as (Hst & Hn & Hcat & Hkey & Hval).
  cbn zeta in *.
  destruct (chat_response_salvar E1 _ w Hst Hn) as (b & d' & Hrun & Hresp).
  cbn zeta in *.
  rewrite Hcat, Hkey, Hval, (replace_absent _ _ _ Hs) in Hrun.
  rewrite Hcat, Hkey, (replace_absent _ _ _ Hs) in Hresp.
  rewrite Hsave in Hresp. apply Return_pair_inj in Hresp as [Hb ->].
  destruct b.
  2:{ symmetry in Hb. by apply saved_is_not_error in Hb. }
  clear Hb.
  destruct (save_knowledge_cases (io E1 AtSaveKnowledge) (strip c) (strip k)
              (strip v) (db w)) as (b & d1 & Hrun' & _ & Hok).
  rewrite Hrun in Hrun'. injection Hrun' as <- <-.
  destruct (insert_or_replace_knowledge_lookup _ _ _ _ _ (Hok eq_refl))
    as [_ Hsel].
  destruct (recuperar_parse c k Hc Hk) as (Hst2 & Hn2 & Hcat2 & Hkey2).
  cbn zeta in *.
  destruct (chat_response_recuperar E2 _ {| db := d'; sent := sent w |}
              Hst2 Hn2) as (valor & Hget & ->).
  cbn zeta in Hget. cbn [db] in Hget.
  rewrite Hcat2, Hkey2, (replace_absent _ _ _ Hr), Hio in Hget.
  rewrite get_knowledge_no_faults, Hsel in Hget.
  apply Return_pair_inj in Hget as [<- _].
  destruct (strip v); cbn [truthy]; reflexivity.
Qed.

Lemma salvar_recuperar_roundtrip_witness :
  chat_response (quiet 1700000001 (py "ok"))
    (py "/recuperar" ++ py " fatos" ++ [colon] ++ py "hora")
    (chat_response (quiet 1700000000 (py "ok"))
       (py "/salvar" ++ py " fatos" ++ [colon] ++ py "hora" ++ [colon]
        ++ py " 12:30 ") fresh).2
  = (Return (if truthy (strip (py " 12:30 "))
             then py "Valor recuperado: " ++ strip (py " 12:30 ")
             else py "Conhecimento não encontrado"),
     (chat_response (quiet 1700000000 (py "ok"))
        (py "/salvar" ++ py " fatos" ++ [colon] ++ py "hora" ++ [colon]
         ++ py " 12:30 ") fresh).2).
Proof.
  apply (salvar_recuperar_roundtrip (quiet 1700000000 (py "ok"))
           (quiet 1700000001 (py "ok")) (py " fatos") (py "hora")
           (py " 12:30 ") fresh).
  - apply not_elem_of_existsb. vm_compute. reflexivity.
  - apply not_elem_of_existsb. vm_compute. reflexivity.
  - vm_compute. reflexivity.
  - vm_compute. reflexivity.
  - vm_compute. reflexivity.
  - reflexivity.
Defined.

(* ===================================================================== *)
(** * Further properties of the orchestrator and of the routes *)
(* ===================================================================== *)

(** X13.  A failure to save the conversation does not keep the answer from
    the caller: when the completion endpoint answers [resposta],
    [process_message] returns [resposta] whatever happens to
    [save_conversation]; the database is then as before, or has the one new
    row; the knowledge table is as before. *)
Theorem process_message_answer
    (E : Env) (um resposta : str) (historico : list (str * str)) (w : World) :
  get_conversation_history (io E AtHistory) 2 (db w)
  = (Return historico, db w) →
  complete E (request_of um historico) = Return resposta →
  ∃ w',
    process_message E um w = (Return resposta, w')
    ∧ sent w' = sent w ++ [request_of um historico]
    ∧ knowledge (db w') = knowledge (db w)
    ∧ (db w' = db w
       ∨ insert_conversation (clock E) um resposta (db w) = Return (db w')).
Proof.
  intros Hh Hc.
  destruct (process_message_run E um w) as (h & Hh' & Hrun).
  rewrite Hh in Hh'. injection Hh' as <-. simpl in Hrun. rewrite Hc in Hrun.
  destruct Hrun as (b & d' & Hsave & _ & Hp).
  eexists. split; [exact Hp|]. simpl. split; [done|].
  destruct (save_conversation_cases (io E AtSaveConversation) (clock E) um
              resposta (db w)) as (b' & d'' & Hsave' & Hd & _).
  rewrite Hsave in Hsave'. injection Hsave' as <- <-.
  destruct Hd as [->|Hins]; [by split; [|left]|].
  split; [|by right].
  by apply insert_conversation_inv in Hins as (? & _ & _ & ? & _).
Qed.

Lemma process_message_answer_witness :
  ∃ w',
    process_message
      {| io := fun _ => fault_at Commit (py "disk I/O error");
         clock := 7; complete := fun _ => Return (py "ok") |}
      (py "oi") fresh
    = (Return (py "ok"), w')
    ∧ sent w' = sent fresh ++ [request_of (py "oi") []]
    ∧ knowledge (db w') = knowledge (db fresh)
    ∧ (db w' = db fresh
       ∨ insert_conversation 7 (py "oi") (py "ok") (db fresh)
         = Return (db w')).
Proof.
  apply (process_message_answer
           {| io := fun _ => fault_at Commit (py "disk I/O error");
              clock := 7; complete := fun _ => Return (py "ok") |}
           (py "oi") (py "ok") [] fresh).
  - vm_compute. reflexivity.
  - reflexivity.
Defined.

(** X14.  What [process_message] does to the world, in every case: it sends
    one request to the completion endpoint; it leaves the knowledge table as
    it is; it leaves the conversations table as it is or appends one row to
    it, and that row holds the message, the clock of the insertion and the
    very text that is returned to the caller.  When the endpoint raises,
    nothing is saved. *)
Theorem process_message_effect (E : Env) (um : str) (w : World) :
  let w' := (process_message E um w).2 in
  (∃ request, sent w' = sent w ++ [request]
     ∧ ((∃ e, complete E request = Raise e) → db w' = db w))
  ∧ knowledge (db w') = knowledge (db w)
  ∧ (conversations (db w') = conversations (db w)
     ∨ ∃ r, conversations (db w') = conversations (db w) ++ [r]
            ∧ user_message r = um
            ∧ timestamp r = clock E
            ∧ (process_message E um w).1 = Return (ai_response r)).
Proof.
  destruct (process_message_run E um w) as (h & Hh & Hrun). simpl in Hrun.
  destruct (complete E (request_of um h)) as [resposta|e] eqn:Hc.
  - destruct Hrun as (b & d' & Hsave & _ & Hp). rewrite Hp. simpl.
    split.
    { eexists. split; [done|]. intros [e He]. congruence. }
    destruct (save_conversation_cases (io E AtSaveConversation) (clock E) um
                resposta (db w)) as (b' & d'' & Hsave' & Hd & _).
    rewrite Hsave in Hsave'. injection Hsave' as <- <-.
    destruct Hd as [->|Hins]; [by split; [|left]|].
    apply insert_conversation_inv in Hins as (id & Hrows & _ & Hk & _).
    split; [done|]. right. eexists. split; [exact Hrows|]. done.
  - destruct Hrun as [_ Hp]. rewrite Hp. simpl.
    split; [|by split; [|left]]. eexists. split; [done|]. done.
Qed.

(** X15.  When reading the history fails, [process_message] goes on without
    context: the request it sends holds the system instruction and the
    message of the user, and nothing else. *)
Theorem history_failure_no_context
    (E : Env) (um e : str) (p : phase) (w : World) :
  io E AtHistory p = Raise e → p ≠ Commit →
  sent (process_message E um w).2
  = sent w
    ++ [{| messages := [persona; {| role := py "user"; content := um |}];
           model := py "llama3-8b-8192" |}].
Proof.
  intros Hp Hne.
  destruct (process_message_run E um w) as (h & Hh & Hrun). simpl in Hrun.
  rewrite (get_conversation_history_fault _ p e) in Hh by done.
  injection Hh as <-.
  destruct (complete E (request_of um [])).
  - destruct Hrun as (b & d' & _ & _ & ->). done.
  - destruct Hrun as [_ ->]. done.
Qed.

Lemma history_failure_no_context_witness :
  sent (process_message
          {| io := fun _ => fault_at Connect (py "unable to open database file");
             clock := 7; complete := fun _ => Return (py "ok") |}
          (py "oi")
          {| db := after_calls [CallSaveConversation no_faults 5 (py "a")
                                  (py "b")];
             sent := [] |}).2
  = sent {| db := after_calls [CallSaveConversation no_faults 5 (py "a")
                                 (py "b")];
            sent := [] |}
    ++ [{| messages := [persona; {| role := py "user"; content := py "oi" |}];
           model := py "llama3-8b-8192" |}].
Proof.
  apply (history_failure_no_context _ _ (py "unable to open database file")
           Connect).
  - vm_compute. reflexivity.
  - discriminate.
Defined.

(** ** The routes *)

Lemma process_message_total E um w :
  ∃ text w', process_message E um w = (Return text, w').
Proof.
  destruct (process_message_run E um w) as (h & _ & Hrun). simpl in Hrun.
  destruct (complete E (request_of um h)).
  - destruct Hrun as (b & d' & _ & _ & Hp). eauto.
  - destruct Hrun as [_ Hp]. eauto.
Qed.

Lemma chat_response_total E um w :
  ∃ text w', chat_response E um w = (Return text, w').
Proof.
  destruct (startswith (py "/salvar") um) eqn:Hs.
  - destruct (le_lt_dec 3 (length (split colon um))) as [Hn|Hn].
    + destruct (chat_response_salvar E um w Hs Hn) as (b & d' & _ & ->).
      eauto.
    + rewrite chat_response_normal.
      * destruct (process_message_total E um w) as (t & w' & ->). eauto.
      * by right.
      * left. destruct (startswith (py "/recuperar") um) eqn:Hr; [|done].
        apply startswith_recuperar_not_salvar in Hr. congruence.
  - destruct (startswith (py "/recuperar") um) eqn:Hr.
    + destruct (decide (length (split colon um) = 2%nat)) as [Hn|Hn].
      * destruct (chat_response_recuperar E um w Hr Hn) as (v & _ & ->).
        eauto.
      * rewrite chat_response_normal; [|by left|by right].
        destruct (process_message_total E um w) as (t & w' & ->). eauto.
    + rewrite chat_response_normal; [|by left|by left].
      destruct (process_message_total E um w) as (t & w' & ->). eauto.
Qed.

(** The case of an answer that is not 200 and leaves the world alone. *)
Ltac chat_case :=
  split; [intros [=]|intros _]; split_and!;
  try (intros; discriminate).

(** The course of the route once [chatbot] is there. *)
Lemma chat_run E body w :
  chat E true body w
  = match request_json body with
    | Raise e => (Return (server_error e), w)
    | Return data =>
        match message_missing data with
        | Raise e => (Return (server_error e), w)
        | Return true => (Return bad_request, w)
        | Return false =>
            match json_getitem (py "message") data with
            | Raise e => (Return (server_error e), w)
            | Return message =>
                match as_str message with
                | Raise e => (Return (server_error e), w)
                | Return user_message =>
                    match chat_response E user_message w with
                    | (Return response, w') =>
                        (Return {| status := 200; field := py "response";
                                   text := response |}, w')
                    | (Raise e, w') => (Return (server_error e), w')
                    end
                end
            end
        end
    end.
Proof.
  unfold chat, try_except, lift. cbn [negb].
  unfold mbind, mret, M_bind, M_ret.
  destruct (request_json body) as [data|e]; [|reflexivity].
  destruct (message_missing data) as [[]|e]; [reflexivity| |reflexivity].
  destruct (json_getitem (py "message") data) as [message|e]; [|reflexivity].
  destruct (as_str message) as [user_message|e]; [|reflexivity].
  destruct (chat_response E user_message w) as [[response|e] w']; reflexivity.
Qed.

Lemma message_missing_object fields :
  message_missing (JObject fields)
  = Return (match dict_get (py "message") fields with
            | Some _ => false
            | None => true
            end).
Proof.
  unfold message_missing. cbn [json_truthy json_contains].
  destruct fields as [|f fields]; [reflexivity|]. cbn [negb].
  unfold fmap, outcome_fmap.
  by destruct (dict_get (py "message") (f :: fields)).
Qed.

(** X16.  The route [/api/chat] never raises.  It answers 500 when [chatbot]
    was not created.  Otherwise it answers 500, with the text of the
    exception, when [request.json] raises (a body that is not JSON); 400
    when the JSON value is empty, null, zero or false, or is an object
    without ["message"]; 500 when ["message"] is there and is not a string;
    and 200, with the text that the handling of the message gives under
    ["response"], when ["message"] is a string, and only then.  In all the
    cases but the last the database and the completion endpoint are left
    alone. *)
Theorem chat_statuses
    (E : Env) (chatbot : bool) (body : Body) (w : World) :
  ∃ r w',
    chat E chatbot body w = (Return r, w')
    ∧ (chatbot = false → r = not_initialised ∧ w' = w)
    ∧ (chatbot = true →
       (∀ e, body = NotJson e → r = server_error e ∧ w' = w)
       ∧ (∀ data, body = Json data → json_truthy data = false →
          r = bad_request ∧ w' = w)
       ∧ (∀ fields, body = Json (JObject fields) →
          dict_get (py "message") fields = None →
          r = bad_request ∧ w' = w)
       ∧ (∀ fields v, body = Json (JObject fields) →
          dict_get (py "message") fields = Some v →
          (∀ s, v ≠ JString s) →
          r = server_error (py "'" ++ type_name v
                            ++ py "' object has no attribute 'startswith'")
          ∧ w' = w)
       ∧ (∀ fields um, body = Json (JObject fields) →
          dict_get (py "message") fields = Some (JString um) →
          status r = 200 ∧ field r = py "response"
          ∧ chat_response E um w = (Return (text r), w'))
       ∧ (status r = 200 →
          ∃ fields um,
            body = Json (JObject fields)
            ∧ dict_get (py "message") fields = Some (JString um))).
Proof.
  destruct chatbot.
  2:{ exists not_initialised, w. split; [reflexivity|].
      split; [by intros _|intros [=]]. }
  rewrite chat_run.
  destruct body as [e|data]; cbn [request_json].
  { exists (server_error e), w. split; [reflexivity|]. chat_case.
    by intros e' [= <-]. }
  destruct (message_missing data) as [[]|e] eqn:Hmiss.
  - (* 400 *)
    exists bad_request, w. split; [reflexivity|]. chat_case.
    + by intros data' [= <-] _.
    + by intros fields [= ->] _.
    + intros fields v [= ->] Hv _.
      rewrite message_missing_object, Hv in Hmiss. discriminate.
    + intros fields um [= ->] Hv.
      rewrite message_missing_object, Hv in Hmiss. discriminate.
  - (* the message is there *)
    assert (json_truthy data = true) as Htruthy.
    { unfold message_missing in Hmiss.
      destruct (json_truthy data); [done|]. discriminate. }
    destruct data as [|b|n|z|s|items|fields];
      try (unfold message_missing in Hmiss; rewrite Htruthy in Hmiss;
           discriminate).
    + (* a string that holds "message" *)
      cbn [json_getitem]. eexists _, w. split; [reflexivity|]. chat_case.
      intros data' [= <-]. congruence.
    + (* a list that holds "message" *)
      cbn [json_getitem]. eexists _, w. split; [reflexivity|]. chat_case.
      intros data' [= <-]. congruence.
    + (* an object with "message" *)
      rewrite message_missing_object in Hmiss. cbn [json_getitem].
      destruct (dict_get (py "message") fields) as [v|] eqn:Hv;
        [|discriminate].
      destruct (as_str v) as [um|e] eqn:Hstr.
      * assert (v = JString um) as ->.
        { destruct v; try discriminate. by injection Hstr as ->. }
        destruct (chat_response_total E um w) as (t & w' & Hc). rewrite Hc.
        eexists _, w'. split; [reflexivity|].
        split; [intros [=]|intros _]. split_and!.
        -- intros e [=].
        -- intros data' [= <-]. congruence.
        -- intros fields' [= <-]. congruence.
        -- intros fields' v [= <-] Hv' Hns. rewrite Hv in Hv'.
           injection Hv' as <-. by destruct (Hns um).
        -- intros fields' um' [= <-] Hv'. rewrite Hv in Hv'.
           injection Hv' as <-. cbn [status field text].
           split_and!; [reflexivity|reflexivity|exact Hc].
        -- intros _. by exists fields, um.
      * assert (e = py "'" ++ type_name v
                    ++ py "' object has no attribute 'startswith'"
                ∧ ∀ s, v ≠ JString s) as [-> Hns].
        { destruct v; try discriminate; injection Hstr as <-; done. }
        eexists _, w. split; [reflexivity|]. chat_case.
        -- intros data' [= <-]. congruence.
        -- intros fields' [= <-]. congruence.
        -- intros fields' v' [= <-] Hv' _. rewrite Hv in Hv'.
           by injection Hv' as <-.
        -- intros fields' um [= <-] Hv'. rewrite Hv in Hv'.
           injection Hv' as ->. by destruct (Hns um).
  - (* [in] raises *)
    exists (server_error e), w. split; [reflexivity|]. chat_case.
    + intros data' [= <-] Hf. unfold message_missing in Hmiss.
      rewrite Hf in Hmiss. discriminate.
    + intros fields [= ->] _. by rewrite message_missing_object in Hmiss.
    + intros fields v [= ->] _ _. by rewrite message_missing_object in Hmiss.
    + intros fields um [= ->] _. by rewrite message_missing_object in Hmiss.
Qed.

Lemma formatted_history_id (history : list (str * str)) :
  (λ msg, (msg.1, msg.2)) <$> history = history.
Proof.
  induction history as [|[a b] h IH]; [done|].
  rewrite fmap_cons. f_equal. exact IH.
Qed.

(** X17.  The route [/api/history] never raises and never changes the
    world.  When [chatbot] was created it answers with what
    [get_conversation_history] returns for the limit of the query, 10 when
    the query has none: at most 10 entries then, and at most [n] entries for
    a limit [n] that is not negative. *)
Theorem get_history_bounded
    (E : Env) (limit_arg : option Z) (w : World) :
  get_history E false limit_arg w
  = (Return (HistoryError 500 (py "Chatbot não inicializado corretamente")), w)
  ∧ ∃ history,
      get_history E true limit_arg w = (Return (History history), w)
      ∧ get_conversation_history (io E AtHistory) (default 10 limit_arg) (db w)
        = (Return history, db w)
      ∧ (limit_arg = None → (length history ≤ 10)%nat)
      ∧ (∀ n, limit_arg = Some n → 0 ≤ n → (length history ≤ Z.to_nat n)%nat).
Proof.
  split; [done|].
  assert (∀ limit, 0 ≤ limit →
            ∃ history,
              get_conversation_history (io E AtHistory) limit (db w)
              = (Return history, db w)
              ∧ (length history ≤ Z.to_nat limit)%nat) as Hb.
  { intros limit Hl.
    destruct (get_conversation_history_bounded (io E AtHistory) limit (db w)
                Hl) as (entries & Hrun & Hlen & _).
    eexists. split; [exact Hrun|]. by rewrite length_fmap. }
  destruct (get_conversation_history_cases (io E AtHistory)
              (default 10 limit_arg) (db w)) as (history & Hrun & _).
  exists history. split_and!.
  - unfold get_history, try_except, on_db, zoom. simpl.
    unfold mbind, mret, M_bind, M_ret. rewrite Hrun.
    rewrite formatted_history_id. by destruct w.
  - done.
  - intros ->. simpl in Hrun.
    destruct (Hb 10) as (h & Hh & Hlen); [lia|].
    rewrite Hrun in Hh. injection Hh as <-. simpl in Hlen. lia.
  - intros n -> Hn. simpl in Hrun.
    destruct (Hb n Hn) as (h & Hh & Hlen).
    rewrite Hrun in Hh. by injection Hh as <-.
Qed.

(** X18.  Without an API key, missing or empty, or when building the
    [Chatbot] raises, [chatbot] is [None]; the routes [/api/chat] and
    [/api/history] then answer 500 to every request, and neither the
    database nor the completion endpoint is used. *)
Theorem no_chatbot_no_service
    (groq_api_key : option str) (construct : outcome unit)
    (E : Env) (body : Body) (limit_arg : option Z) (w : World) :
  groq_api_key = None ∨ groq_api_key = Some []
  ∨ (∃ e, construct = Raise e) →
  create_chatbot groq_api_key construct = false
  ∧ chat E (create_chatbot groq_api_key construct) body w
    = (Return {| status := 500; field := py "error";
                 text := py "Chatbot não inicializado corretamente" |}, w)
  ∧ get_history E (create_chatbot groq_api_key construct) limit_arg w
    = (Return (HistoryError 500
                 (py "Chatbot não inicializado corretamente")), w).
Proof.
  intros H.
  assert (create_chatbot groq_api_key construct = false) as ->; [|done].
  destruct H as [->|[->|[e ->]]]; [done|done|].
  unfold create_chatbot. destruct groq_api_key as [key|]; [|done].
  by destruct (truthy key).
Qed.

Lemma no_chatbot_no_service_witness :
  create_chatbot (Some []) (Return tt) = false
  ∧ chat (quiet 7 (py "ok")) (create_chatbot (Some []) (Return tt))
      (Json (JObject [(py "message", JString (py "oi"))])) fresh
    = (Return {| status := 500; field := py "error";
                 text := py "Chatbot não inicializado corretamente" |}, fresh)
  ∧ get_history (quiet 7 (py "ok")) (create_chatbot (Some []) (Return tt))
      None fresh
    = (Return (HistoryError 500
                 (py "Chatbot não inicializado corretamente")), fresh).
Proof.
  apply no_chatbot_no_service. right. left. reflexivity.
Defined.

(* ===================================================================== *)
(** * Further properties of the request threads *)
(* ===================================================================== *)

Module ThreadsMore.
Import Threads.

Lemma step_held i now σ : held σ → held (step i now σ).
Proof.
  intros Hheld.
  destruct (ThreadsFacts.step_transition i now σ)
    as [->|(c & p & p' & l' & f' & Hi & Ht & ->)]; [done|].
  intros Hl. simpl in *. exists i, (c, p'). split.
  - apply list_lookup_insert_eq. by eapply lookup_lt_Some.
  - destruct Ht; simpl in *; done.
Qed.

Lemma start_basics calls d0 :
  exclusive (start d0 calls) ∧ coherent (start d0 calls)
  ∧ held (start d0 calls) ∧ fst <$> pool (start d0 calls) = calls.
Proof.
  unfold start, waiting. split_and!.
  - split; simpl.
    + intros i j ti tj (c & -> & _)%list_lookup_fmap_Some. done.
    + intros i t (c & -> & _)%list_lookup_fmap_Some. done.
  - intros i c txn r (c' & [=] & _)%list_lookup_fmap_Some.
  - intros [=].
  - simpl. rewrite <- list_fmap_compose. apply list_fmap_id.
Qed.

Lemma run_snoc schedule i now σ :
  run (schedule ++ [(i, now)]) σ = step i now (run schedule σ).
Proof. unfold run. by rewrite fold_left_app. Qed.

Lemma run_basics calls d0 schedule :
  let σ := run schedule (start d0 calls) in
  exclusive σ ∧ coherent σ ∧ held σ ∧ fst <$> pool σ = calls.
Proof.
  induction schedule as [|[i now] schedule IH] using rev_ind.
  - apply start_basics.
  - simpl in *. rewrite run_snoc. destruct IH as (Hex & Hco & Hh & Hc).
    split_and!.
    + by apply ThreadsFacts.step_exclusive.
    + by apply ThreadsFacts.step_coherent.
    + by apply step_held.
    + by rewrite ThreadsFacts.step_calls.
Qed.

(** A thread that is not blocked and not done moves when it is run. *)
Lemma step_moves i now σ c p :
  pool σ !! i = Some (c, p) → finished p = false →
  p = Waiting → locked σ = false → step i now σ ≠ σ.
Proof.
  intros Hi _ -> Hl Heq. unfold step in Heq. rewrite Hi, Hl in Heq.
  apply (f_equal locked) in Heq. simpl in Heq. congruence.
Qed.

Lemma step_moves_critical i now σ c p :
  pool σ !! i = Some (c, p) → critical p = true → step i now σ ≠ σ.
Proof.
  intros Hi Hc Heq.
  assert (pool (step i now σ) !! i = Some (c, p)) as Hi' by by rewrite Heq.
  unfold step in Hi'. rewrite Hi in Hi'.
  assert (i < length (pool σ))%nat as Hlt by by eapply lookup_lt_Some.
  destruct p as [| |txn r|r|r]; try done; simpl in Hi'.
  - destruct (execute now c (file σ)) as [[txn r]|e]; simpl in Hi';
      rewrite list_lookup_insert_eq in Hi' by done; done.
  - rewrite list_lookup_insert_eq in Hi' by done. done.
  - rewrite list_lookup_insert_eq in Hi' by done. done.
Qed.

(** What a thread commits is what its call, made alone, would leave. *)
Lemma save_conversation_no_faults now um ar d :
  save_conversation no_faults now um ar d
  = match insert_conversation now um ar d with
    | Return d' => (Return true, d')
    | Raise _ => (Return false, d)
    end.
Proof.
  unfold save_conversation. store_steps. simpl.
  by destruct (insert_conversation now um ar d).
Qed.

Lemma execute_after_call now c d txn r :
  execute now c d = Return (txn, r) →
  default d txn = after_call d (store_call_of (c, now)).
Proof.
  destruct c as [um ar|k0 k1 v|k0 k1|limit]; unfold store_call_of;
    cbn [fst snd execute after_call];
    unfold mbind, mret, outcome_bind, outcome_ret.
  - rewrite save_conversation_no_faults.
    destruct (insert_conversation now um ar d); [|done].
    by intros [= <- _].
  - rewrite save_knowledge_no_faults.
    destruct (insert_or_replace_knowledge k0 k1 v d); [|done].
    by intros [= <- _].
  - destruct (get_knowledge_cases no_faults k0 k1 d) as (x & -> & _).
    destruct (select_value k0 k1 d); [|done]. by intros [= <- _].
  - destruct (get_conversation_history_cases no_faults limit d)
      as (x & -> & _).
    destruct (select_history limit d); [|done]. by intros [= <- _].
Qed.

Lemma step_serial calls d0 i now σ :
  coherent σ → fst <$> pool σ = calls →
  serial calls d0 σ → serial calls d0 (step i now σ).
Proof.
  intros Hco Hcalls (log & Hfile & Hlog).
  destruct (ThreadsFacts.step_transition i now σ)
    as [->|(c & p & p' & l' & f' & Hi & Ht & ->)]; [by exists log|].
  unfold serial. simpl.
  destruct Ht as [Hl|txn r He|e He|txn r|r]; try by exists log.
  destruct (Hco i c txn r Hi) as (now' & He).
  exists (log ++ [(c, now')]). split.
  - rewrite fmap_app, fold_left_app. simpl. rewrite <- Hfile.
    by eapply execute_after_call.
  - apply Forall_app. split; [done|]. apply Forall_singleton. simpl.
    rewrite <- Hcalls. apply list_elem_of_fmap.
    exists (c, Executed txn r).
    split; [done|]. by eapply list_elem_of_lookup_2.
Qed.

Lemma run_serial calls d0 schedule :
  serial calls d0 (run schedule (start d0 calls)).
Proof.
  induction schedule as [|[i now] schedule IH] using rev_ind.
  - exists []. done.
  - rewrite run_snoc.
    destruct (run_basics calls d0 schedule) as (_ & Hco & _ & Hc).
    by apply step_serial.
Qed.

Lemma fold_after_call_unique cs d :
  NoDup (fact_keys d) → NoDup (fact_keys (fold_left after_call cs d)).
Proof.
  revert d. induction cs as [|call cs IH]; intros d Hd; simpl; [done|].
  by apply IH, after_call_unique.
Qed.








End ThreadsMore.

(** X19.  [db_lock] is never left held and the threads never block each
    other for good.  In every configuration the threads can reach: while
    the lock is held some thread is inside a store method (also after a
    statement has raised, since leaving the [with] block releases the
    lock); as long as a thread has not returned, some thread moves when it
    is run; and once every thread has returned the lock is free. *)
Theorem no_deadlock
    (calls : list Threads.call) (d0 : Database) (schedule : list (nat * Z)) :
  let σ := Threads.run schedule (Threads.start d0 calls) in
  (Threads.locked σ = true →
   ∃ i t, Threads.pool σ !! i = Some t ∧ Threads.critical t.2 = true)
  ∧ ((∃ i t, Threads.pool σ !! i = Some t ∧ finished t.2 = false) →
     ∃ j, ∀ now, Threads.step j now σ ≠ σ)
  ∧ (Forall (λ t, finished t.2 = true) (Threads.pool σ) →
     Threads.locked σ = false).
Proof.
  intros σ.
  destruct (ThreadsMore.run_basics calls d0 schedule)
    as ([Hone Hlock] & _ & Hheld & _).
  fold σ in Hone, Hlock, Hheld. split_and!.
  - exact Hheld.
  - intros (i & [c p] & Hi & Hfin). simpl in Hfin.
    destruct (Threads.locked σ) eqn:Hl.
    + destruct (Hheld Hl) as (j & [cj pj] & Hj & Hcrit).
      exists j. intros now.
      by eapply ThreadsMore.step_moves_critical.
    + exists i. intros now.
      destruct (Threads.critical p) eqn:Hcrit.
      * specialize (Hlock i (c, p) Hi Hcrit). congruence.
      * eapply ThreadsMore.step_moves; [done..| |done].
        by destruct p.
  - intros Hall. destruct (Threads.locked σ) eqn:Hl; [|done].
    destruct (Hheld Hl) as (j & [cj pj] & Hj & Hcrit).
    apply list_elem_of_lookup_2 in Hj.
    apply (proj1 (Forall_forall _ _) Hall) in Hj. simpl in *.
    by destruct pj.
Qed.


(** X21.  [UNIQUE(category, key)] holds at every moment of every schedule
    of threads, when it holds at the start. *)
Theorem concurrent_unique_category_key
    (calls : list Threads.call) (d0 : Database) (schedule : list (nat * Z)) :
  NoDup (fact_keys d0) →
  NoDup (fact_keys
           (Threads.file (Threads.run schedule (Threads.start d0 calls)))).
Proof.
  intros Hd.
  destruct (ThreadsMore.run_serial calls d0 schedule) as (log & -> & _).
  by apply ThreadsMore.fold_after_call_unique.
Qed.

Lemma concurrent_unique_category_key_witness :
  NoDup (fact_keys
           (Threads.file
              (Threads.run
                 [(0%nat, 7); (1%nat, 7); (0%nat, 7); (0%nat, 7); (0%nat, 7);
                  (1%nat, 8); (1%nat, 8); (1%nat, 8); (1%nat, 8)]
                 (Threads.start (init_database None)
                    [Threads.SaveKnowledge (py "a") (py "b") (py "1");
                     Threads.SaveKnowledge (py "a") (py "b") (py "2")])))).
Proof.
  apply concurrent_unique_category_key. vm_compute. constructor.
Defined.

(* ===================================================================== *)
(** * Commands that are not commands, and the history in the usual case *)
(* ===================================================================== *)

(** X22.  A message that begins with ["/salvar"] but is split by [':'] into
    fewer than three parts, or begins with ["/recuperar"] and is split into
    a number of parts other than two, is not a command: [chat] handles it as
    any other message, with [process_message]. *)
Theorem malformed_command_is_a_message (E : Env) (um : str) (w : World) :
  (startswith (py "/salvar") um = true
   ∧ (length (split colon um) < 3)%nat)
  ∨ (startswith (py "/recuperar") um = true
     ∧ length (split colon um) ≠ 2%nat) →
  chat_response E um w = process_message E um w.
Proof.
  intros [[Hs Hn]|[Hr Hn]].
  - apply chat_response_normal; [by right|left].
    destruct (startswith (py "/recuperar") um) eqn:Hr; [|done].
    apply startswith_recuperar_not_salvar in Hr. congruence.
  - apply chat_response_normal; [left|by right].
    by apply startswith_recuperar_not_salvar.
Qed.

Lemma malformed_command_is_a_message_witness :
  chat_response (quiet 7 (py "ok")) (py "/recuperar fatos:capital:Paris") fresh
  = process_message (quiet 7 (py "ok")) (py "/recuperar fatos:capital:Paris")
      fresh.
Proof.
  apply malformed_command_is_a_message. right.
  split; [vm_compute; reflexivity|vm_compute; discriminate].
Defined.

(** Two conversations saved in different seconds, the second one later: the
    history is the second one, then the first. *)
Lemma get_conversation_history_increasing_witness :
  get_conversation_history no_faults 2
    (after_calls [CallSaveConversation no_faults 7 (py "oi") (py "A");
                  CallSaveConversation no_faults 9 (py "e?") (py "B")])
  = (Return ((λ r, (user_message r, ai_response r))
               <$> take (Z.to_nat 2)
                     (reverse
                        (conversations
                           (after_calls
                              [CallSaveConversation no_faults 7 (py "oi")
                                 (py "A");
                               CallSaveConversation no_faults 9 (py "e?")
                                 (py "B")])))),
     after_calls [CallSaveConversation no_faults 7 (py "oi") (py "A");
                  CallSaveConversation no_faults 9 (py "e?") (py "B")]).
Proof.
  apply get_conversation_history_increasing.
  - vm_compute. split; discriminate.
  - vm_compute. repeat constructor.
Defined.
